(** * GPIO lower half for an I/O expander pin

    A shallow embedding of [drivers/ioexpander/gpio_lower_half.c]: the
    per-pin driver state [struct gplh_dev_s], the four lower-half methods
    ([gplh_read], [gplh_write], [gplh_attach], [gplh_enable]), the
    interrupt forwarding function [gplh_handler] and the constructor
    [gpio_lower_half].

    The C code works on a record reached through a pointer and calls out
    to collaborators that are not part of the file (the I/O expander
    methods behind the IOEXP_/IOEP_ macros, [gpio_pin_register], the
    kernel allocator, the consumer's pin-interrupt callback).  Memory is
    a finite map from addresses to driver records, every collaborator
    call is appended to a trace, and what a collaborator answers is read
    from a table of functions of the state at the time of the call. *)

From Stdlib Require Import ZArith Bool List Lia.
From stdpp Require Import base gmap.
Import ListNotations.

Local Open Scope Z_scope.

(** ** Pointers, integers, error numbers *)

(** Data and function pointers are addresses; the null pointer is 0. *)
Definition ptr := Z.
Definition NULL : ptr := 0.

Definition OK : Z := 0.
Definition EPERM : Z := 1.
Definition EIO : Z := 5.
Definition ENOMEM : Z := 12.

(** The conversions [(uint8_t)x] and [(unsigned int)x]. *)
Definition uint8 (x : Z) : Z := x mod 2 ^ 8.
Definition uint (x : Z) : Z := x mod 2 ^ 32.

Definition is_null (p : ptr) : bool := p =? NULL.

(** ** Data model *)

(** [gp_ops] points to a constant operation table; the only table this
    file defines is [g_gplh_ops]. *)
Inductive gpio_ops_ref : Type :=
  | ops_NULL
  | ops_g_gplh_ops.

(** The fields of [struct gpio_dev_s] that this file touches. *)
Record gpio_dev_s : Type := Build_gpio_dev_s {
  gp_pintype : Z;
  gp_ops : gpio_ops_ref
}.

Record gplh_dev_s : Type := Build_gplh_dev_s {
  gpio : gpio_dev_s;   (* publicly visible lower-half state, first member *)
  pin : Z;             (* uint8_t: I/O expander pin ID *)
  ioe : ptr;           (* I/O expander interface *)
  handle : ptr;        (* interrupt attach handle *)
  callback : ptr       (* pin_interrupt_t: interrupt callback *)
}.

Definition set_gp_pintype (v : Z) (g : gpio_dev_s) : gpio_dev_s :=
  {| gp_pintype := v; gp_ops := gp_ops g |}.
Definition set_gp_ops (v : gpio_ops_ref) (g : gpio_dev_s) : gpio_dev_s :=
  {| gp_pintype := gp_pintype g; gp_ops := v |}.

Definition set_gpio (f : gpio_dev_s -> gpio_dev_s) (r : gplh_dev_s) : gplh_dev_s :=
  {| gpio := f (gpio r); pin := pin r; ioe := ioe r;
     handle := handle r; callback := callback r |}.
Definition set_pin (v : Z) (r : gplh_dev_s) : gplh_dev_s :=
  {| gpio := gpio r; pin := v; ioe := ioe r;
     handle := handle r; callback := callback r |}.
Definition set_handle (v : ptr) (r : gplh_dev_s) : gplh_dev_s :=
  {| gpio := gpio r; pin := pin r; ioe := ioe r;
     handle := v; callback := callback r |}.
Definition set_callback (v : ptr) (r : gplh_dev_s) : gplh_dev_s :=
  {| gpio := gpio r; pin := pin r; ioe := ioe r;
     handle := handle r; callback := v |}.

(** What [kmm_zalloc] hands out: every byte zero. *)
Definition gplh_zero : gplh_dev_s :=
  {| gpio := {| gp_pintype := 0; gp_ops := ops_NULL |};
     pin := 0; ioe := NULL; handle := NULL; callback := NULL |}.

(** [&priv->gpio]: the anchor is the first member, so it has the address
    of the record; [(struct gplh_dev_s * )gpio] is the way back. *)
Definition gpio_of (priv : ptr) : ptr := priv.
Definition priv_of (gpio : ptr) : ptr := gpio.

(** The interrupt function handed to the expander. *)
Inductive ioe_callback_t : Type :=
  | fn_gplh_handler.

(** ** Calls that leave the file *)

Inductive event : Type :=
  | EvReadPin (dev : ptr) (pin : Z)
  | EvWritePin (dev : ptr) (pin : Z) (value : bool)
  | EvAttach (dev : ptr) (pinset : Z) (cb : ioe_callback_t) (arg : ptr)
  | EvDetach (dev : ptr) (handle : ptr)
  | EvRegister (gpio : ptr) (minor : Z)
  | EvZalloc
  | EvFree (mem : ptr)
  | EvCallback (cb : ptr) (gpio : ptr).

Record world : Type := Build_world {
  heap : gmap Z gplh_dev_s;
  trace : list event         (* oldest call first *)
}.

Definition with_heap (f : gmap Z gplh_dev_s -> gmap Z gplh_dev_s) (w : world) : world :=
  {| heap := f (heap w); trace := trace w |}.
Definition log (e : event) (w : world) : world :=
  {| heap := heap w; trace := trace w ++ [e] |}.

(** Build-time constants that come from headers outside this file. *)
Record config : Type := Build_config {
  CONFIG_IOEXPANDER_NPINS : Z;
  GPIO_NPINTYPES : Z;
  ioe_pinset_bits : Z        (* width of ioe_pinset_t *)
}.

(** The answers of the collaborators, each a function of the state at
    the time of the call.  None of them writes a field of a driver
    record. *)
Record collab : Type := Build_collab {
  ioe_readpin : world -> ptr -> Z -> Z * option bool;
  ioe_writepin : world -> ptr -> Z -> bool -> Z;
  ioe_attach : world -> ptr -> Z -> ioe_callback_t -> ptr -> ptr;
  ioe_detach : world -> ptr -> ptr -> Z;
  pin_register : world -> ptr -> Z -> Z;
  zalloc : world -> ptr;
  pin_interrupt : world -> ptr -> ptr -> Z
}.

(** ** A state monad with a failed assertion *)

Inductive outcome (A : Type) : Type :=
  | Abort                       (* a DEBUGASSERT failed, or a wild pointer *)
  | Ret (a : A) (w : world).
Arguments Abort {A}.
Arguments Ret {A} a w.

Definition M (A : Type) : Type := world -> outcome A.

Definition ret {A} (a : A) : M A := fun w => Ret a w.
Definition bind {A B} (m : M A) (k : A -> M B) : M B :=
  fun w => match m w with
           | Abort => Abort
           | Ret a w' => k a w'
           end.

Notation "x <~ m ;; k" := (bind m (fun x => k))
  (at level 100, m at next level, right associativity).
Notation "m ;;; k" := (bind m (fun _ => k))
  (at level 100, right associativity).

(** A DEBUGASSERT that fails stops the run: what the code does past a
    failed assertion is not described here. *)
Definition DEBUGASSERT (b : bool) : M unit :=
  fun w => if b then Ret tt w else Abort.

(** [*p] for a driver record. *)
Definition load (p : ptr) : M gplh_dev_s :=
  fun w => match heap w !! p with
           | Some r => Ret r w
           | None => Abort
           end.

(** [p->field = ...], written as an update of the record at [p]. *)
Definition modify (p : ptr) (f : gplh_dev_s -> gplh_dev_s) : M unit :=
  r <~ load p ;;
  fun w => Ret tt (with_heap (insert p (f r)) w).

Section Driver.

Variable cfg : config.
Variable E : collab.

(** *** Collaborator calls *)

(** The IOEXP_/IOEP_ macros, [gpio_pin_register] and the call through a
    [pin_interrupt_t] pointer are calls of code outside this file: each
    is logged and answers what [E] says. *)

Definition IOEXP_READPIN (dev : ptr) (pin : Z) : M (Z * option bool) :=
  fun w => Ret (ioe_readpin E w dev pin) (log (EvReadPin dev pin) w).

Definition IOEXP_WRITEPIN (dev : ptr) (pin : Z) (value : bool) : M Z :=
  fun w => Ret (ioe_writepin E w dev pin value) (log (EvWritePin dev pin value) w).

Definition IOEP_ATTACH (dev : ptr) (pinset : Z) (cb : ioe_callback_t) (arg : ptr) : M ptr :=
  fun w => Ret (ioe_attach E w dev pinset cb arg) (log (EvAttach dev pinset cb arg) w).

Definition IOEP_DETACH (dev : ptr) (h : ptr) : M Z :=
  fun w => Ret (ioe_detach E w dev h) (log (EvDetach dev h) w).

Definition gpio_pin_register (gpio : ptr) (minor : Z) : M Z :=
  fun w => Ret (pin_register E w gpio minor) (log (EvRegister gpio minor) w).

Definition call_callback (cb : ptr) (gpio : ptr) : M Z :=
  fun w => Ret (pin_interrupt E w cb gpio) (log (EvCallback cb gpio) w).

(** Modelled from the spec: the allocator is outside this file; it is
    a "zero-initialized allocation and release of the adapter record".
    The address (or NULL) is the collaborator's answer; a non-null answer
    is a zeroed record at that address, and [kmm_free] removes it. *)
Definition kmm_zalloc : M ptr :=
  fun w =>
    let p := zalloc E w in
    let w' := log EvZalloc w in
    if is_null p then Ret NULL w'
    else Ret p (with_heap (insert p gplh_zero) w').

(** Modelled from the spec: the "release" half of the allocation
    capability; the record at [p] is gone afterwards. *)
Definition kmm_free (p : ptr) : M unit :=
  fun w => Ret tt (with_heap (delete p) (log (EvFree p) w)).

(** *** The driver *)

(** [((ioe_pinset_t)1 << pin)], kept to the width of [ioe_pinset_t]. *)
Definition pinset_of (pin : Z) : Z :=
  Z.land (Z.shiftl 1 pin) (Z.ones (ioe_pinset_bits cfg)).

(** [DEBUGASSERT(priv != NULL && priv->ioe != NULL)], giving the record. *)
Definition assert_priv_ioe (priv : ptr) : M gplh_dev_s :=
  DEBUGASSERT (negb (is_null priv)) ;;;
  r <~ load priv ;;
  DEBUGASSERT (negb (is_null (ioe r))) ;;;
  ret r.

Definition gplh_handler (ioe_ : ptr) (pinset : Z) (arg : ptr) : M Z :=
  let priv := arg in
  DEBUGASSERT (negb (is_null priv)) ;;;
  r <~ load priv ;;
  DEBUGASSERT (negb (is_null (callback r))) ;;;
  call_callback (callback r) (gpio_of priv).

Definition gplh_read (gpio_ : ptr) : M (Z * option bool) :=
  let priv := priv_of gpio_ in
  r <~ assert_priv_ioe priv ;;
  IOEXP_READPIN (ioe r) (pin r).

Definition gplh_write (gpio_ : ptr) (value : bool) : M Z :=
  let priv := priv_of gpio_ in
  r <~ assert_priv_ioe priv ;;
  IOEXP_WRITEPIN (ioe r) (pin r) value.

Definition gplh_attach (gpio_ : ptr) (cb : ptr) : M Z :=
  let priv := priv_of gpio_ in
  r <~ assert_priv_ioe priv ;;
  (if negb (is_null (handle r)) then
     IOEP_DETACH (ioe r) (handle r) ;;;
     modify priv (set_handle NULL)
   else ret tt) ;;;
  modify priv (set_callback cb) ;;;
  ret OK.

Definition gplh_enable (gpio_ : ptr) (enable : bool) : M Z :=
  let priv := priv_of gpio_ in
  r <~ assert_priv_ioe priv ;;
  if enable then
    if is_null (callback r) then
      ret (- EPERM)
    else if is_null (handle r) then
      let pinset := pinset_of (pin r) in
      h <~ IOEP_ATTACH (ioe r) pinset fn_gplh_handler priv ;;
      modify priv (set_handle h) ;;;
      if is_null h then ret (- EIO) else ret OK
    else
      ret OK
  else
    if is_null (handle r) then
      ret OK
    else
      d <~ IOEP_DETACH (ioe r) (handle r) ;;
      modify priv (set_handle NULL) ;;;
      ret d.

(** [pin_] is an [unsigned int] (a value from 0 up), [pintype] an
    enumeration value. *)
Definition gpio_lower_half (ioe_ : ptr) (pin_ : Z) (pintype : Z) (minor : Z) : M Z :=
  DEBUGASSERT (negb (is_null ioe_)
               && (pin_ <? CONFIG_IOEXPANDER_NPINS cfg)
               && (uint pintype <? GPIO_NPINTYPES cfg)) ;;;
  priv <~ kmm_zalloc ;;
  if is_null priv then
    ret (- ENOMEM)
  else
    modify priv (set_pin (uint8 pin_)) ;;;
    let gpio_ := gpio_of priv in
    modify (priv_of gpio_) (set_gpio (set_gp_pintype (uint8 pintype))) ;;;
    modify (priv_of gpio_) (set_gpio (set_gp_ops ops_g_gplh_ops)) ;;;
    r <~ gpio_pin_register gpio_ minor ;;
    (if r <? 0 then kmm_free priv else ret tt) ;;;
    ret r.

(** *** The operation table and the ways into the driver *)

Record gpio_operations_s : Type := Build_gpio_operations_s {
  go_read : ptr -> M (Z * option bool);
  go_write : ptr -> bool -> M Z;
  go_attach : ptr -> ptr -> M Z;
  go_enable : ptr -> bool -> M Z
}.

Definition g_gplh_ops : gpio_operations_s :=
  {| go_read := gplh_read;
     go_write := gplh_write;
     go_attach := gplh_attach;
     go_enable := gplh_enable |}.

Definition deref_ops (o : gpio_ops_ref) : option gpio_operations_s :=
  match o with
  | ops_NULL => None
  | ops_g_gplh_ops => Some g_gplh_ops
  end.

(** The expander calling the function it was given at attach time. *)
Definition ioe_callback (f : ioe_callback_t) : ptr -> Z -> ptr -> M Z :=
  match f with
  | fn_gplh_handler => gplh_handler
  end.

(** A call that a consumer makes through the operation table. *)
Inductive gpio_call : Type :=
  | call_read
  | call_write (value : bool)
  | call_attach (cb : ptr)
  | call_enable (enable : bool).

Definition run_call (c : gpio_call) (gpio_ : ptr) : M unit :=
  match c with
  | call_read => go_read g_gplh_ops gpio_ ;;; ret tt
  | call_write value => go_write g_gplh_ops gpio_ value ;;; ret tt
  | call_attach cb => go_attach g_gplh_ops gpio_ cb ;;; ret tt
  | call_enable enable => go_enable g_gplh_ops gpio_ enable ;;; ret tt
  end.

(** One completed entry into the driver: a construction, a call through
    the operation table on some pin device, or an interrupt delivered by
    the expander. *)
Inductive step : world -> world -> Prop :=
  | step_create ioe_ pin_ pintype minor res w w' :
      gpio_lower_half ioe_ pin_ pintype minor w = Ret res w' -> step w w'
  | step_call c gpio_ w w' :
      run_call c gpio_ w = Ret tt w' -> step w w'
  | step_irq f dev pinset arg res w w' :
      ioe_callback f dev pinset arg w = Ret res w' -> step w w'.

End Driver.

(** ** Predicates on driver records *)

(** [live w p r]: [p] is a non-null pointer to the record [r], whose
    expander reference is non-null.  This is what
    [DEBUGASSERT(priv != NULL && priv->ioe != NULL)] asks for. *)
Definition live (w : world) (p : ptr) (r : gplh_dev_s) : Prop :=
  p <> NULL /\ heap w !! p = Some r /\ ioe r <> NULL.

(** An interrupt registration is held only with a callback in place. *)
Definition irq_inv (r : gplh_dev_s) : Prop :=
  handle r <> NULL -> callback r <> NULL.

Definition world_inv (w : world) : Prop :=
  forall p r, heap w !! p = Some r -> irq_inv r.

(** The record as [gpio_lower_half] leaves it when it registers it. *)
Definition gplh_created (pin_ pintype : Z) : gplh_dev_s :=
  set_gpio (set_gp_ops ops_g_gplh_ops)
    (set_gpio (set_gp_pintype (uint8 pintype))
       (set_pin (uint8 pin_) gplh_zero)).

(** ** A small board to run the driver on *)

Definition board_cfg : config :=
  {| CONFIG_IOEXPANDER_NPINS := 16; GPIO_NPINTYPES := 3; ioe_pinset_bits := 16 |}.

(** An expander that reads [true], accepts writes, answers attach with
    [h] and detach with [d]; registration answers [reg]; the allocator
    answers [mem]; the consumer's callback returns its argument. *)
Definition board (h : ptr) (d reg : Z) (mem : ptr) : collab :=
  {| ioe_readpin := fun _ _ _ => (OK, Some true);
     ioe_writepin := fun _ _ _ _ => OK;
     ioe_attach := fun _ _ _ _ _ => h;
     ioe_detach := fun _ _ _ => d;
     pin_register := fun _ _ _ => reg;
     zalloc := fun _ => mem;
     pin_interrupt := fun _ _ g => g |}.

Definition empty_world : world := {| heap := ∅; trace := [] |}.

(** A record at address 4096: pin 3 of the expander at 8192. *)
Definition pin3 (h cb : ptr) : gplh_dev_s :=
  {| gpio := {| gp_pintype := 2; gp_ops := ops_g_gplh_ops |};
     pin := 3; ioe := 8192; handle := h; callback := cb |}.

Definition pin3_world (h cb : ptr) : world :=
  {| heap := {[ 4096 := pin3 h cb ]}; trace := [] |}.

(** ** Reading the trace *)

(** The expander that a logged call went to, when it is an expander
    call. *)
Definition event_dev (e : event) : option ptr :=
  match e with
  | EvReadPin dev _ => Some dev
  | EvWritePin dev _ _ => Some dev
  | EvAttach dev _ _ _ => Some dev
  | EvDetach dev _ => Some dev
  | EvRegister _ _ => None
  | EvZalloc => None
  | EvFree _ => None
  | EvCallback _ _ => None
  end.

(** Every handle held by a record was asked for: the trace has an attach
    call whose argument is that record. *)
Definition handles_logged (w : world) : Prop :=
  forall p r, heap w !! p = Some r -> handle r <> NULL ->
    exists dev pinset, In (EvAttach dev pinset fn_gplh_handler p) (trace w).

(** ** Reasoning about the monad *)

Lemma bind_Ret {A B} (m : M A) (k : A -> M B) w a w' :
  m w = Ret a w' -> bind m k w = k a w'.
Proof. intros H. unfold bind. now rewrite H. Qed.

Lemma bind_Abort {A B} (m : M A) (k : A -> M B) w :
  m w = Abort -> bind m k w = Abort.
Proof. intros H. unfold bind. now rewrite H. Qed.

Lemma bind_inv {A B} (m : M A) (k : A -> M B) w b w' :
  bind m k w = Ret b w' -> exists a w1, m w = Ret a w1 /\ k a w1 = Ret b w'.
Proof.
  unfold bind. destruct (m w) as [|a w1]; [discriminate|].
  intros H. now exists a, w1.
Qed.

Lemma load_Some p r w : heap w !! p = Some r -> load p w = Ret r w.
Proof. intros H. unfold load. now rewrite H. Qed.

Lemma load_inv p r w w' : load p w = Ret r w' -> heap w !! p = Some r /\ w' = w.
Proof.
  unfold load. destruct (heap w !! p); [|discriminate].
  intros H. now inversion H.
Qed.

Lemma modify_Some p f r w :
  heap w !! p = Some r -> modify p f w = Ret tt (with_heap (insert p (f r)) w).
Proof. intros H. unfold modify. now rewrite (bind_Ret _ _ _ _ _ (load_Some _ _ _ H)). Qed.

Lemma is_null_true p : is_null p = true <-> p = NULL.
Proof. unfold is_null. apply Z.eqb_eq. Qed.

Lemma is_null_false p : is_null p = false <-> p <> NULL.
Proof. unfold is_null. apply Z.eqb_neq. Qed.

Lemma world_eta w : {| heap := heap w; trace := trace w |} = w.
Proof. now destruct w. Qed.

Lemma set_handle_id r : set_handle (handle r) r = r.
Proof. now destruct r. Qed.

Lemma with_heap_insert_id p r w :
  heap w !! p = Some r -> with_heap (insert p r) w = w.
Proof.
  intros H. unfold with_heap. rewrite (insert_id _ _ _ H). apply world_eta.
Qed.

Section DriverFacts.

Variable cfg : config.
Variable E : collab.

Lemma assert_priv_ioe_live w p r :
  live w p r -> assert_priv_ioe p w = Ret r w.
Proof.
  intros (Hp & Hr & Hi). unfold assert_priv_ioe.
  apply is_null_false in Hp. apply is_null_false in Hi.
  unfold DEBUGASSERT at 1. unfold bind at 1. rewrite Hp. cbn [negb].
  rewrite (bind_Ret _ _ _ _ _ (load_Some _ _ _ Hr)).
  unfold bind, DEBUGASSERT. now rewrite Hi.
Qed.

Lemma assert_priv_ioe_inv w p r w' :
  assert_priv_ioe p w = Ret r w' -> live w p r /\ w' = w.
Proof.
  unfold assert_priv_ioe. unfold bind at 1. unfold DEBUGASSERT at 1.
  destruct (is_null p) eqn:Hp; cbn [negb]; [discriminate|].
  intros H. apply bind_inv in H as (r1 & w1 & Hl & H).
  apply load_inv in Hl as [Hr ->].
  unfold bind, DEBUGASSERT in H.
  destruct (is_null (ioe r1)) eqn:Hi; cbn [negb] in H; [discriminate|].
  unfold ret in H. inversion H; subst.
  repeat split; auto; now apply is_null_false.
Qed.

Lemma gplh_read_run w p r :
  live w p r ->
  gplh_read E p w
    = Ret (ioe_readpin E w (ioe r) (pin r)) (log (EvReadPin (ioe r) (pin r)) w).
Proof.
  intros Hl. unfold gplh_read, priv_of.
  now rewrite (bind_Ret _ _ _ _ _ (assert_priv_ioe_live _ _ _ Hl)).
Qed.

Lemma gplh_write_run w p r value :
  live w p r ->
  gplh_write E p value w
    = Ret (ioe_writepin E w (ioe r) (pin r) value)
          (log (EvWritePin (ioe r) (pin r) value) w).
Proof.
  intros Hl. unfold gplh_write, priv_of.
  now rewrite (bind_Ret _ _ _ _ _ (assert_priv_ioe_live _ _ _ Hl)).
Qed.

(** On a record that passes the entry assertion, [gplh_read] and
    [gplh_write] make one call each, to the expander's read-pin
    (write-pin) method, with the record's expander reference and the pin
    number held in the record; whatever the expander answers is the
    return value, and no driver record changes. *)
Theorem gplh_read_write_forward w p r :
  live w p r ->
  (exists w',
      gplh_read E p w = Ret (ioe_readpin E w (ioe r) (pin r)) w'
      /\ trace w' = trace w ++ [EvReadPin (ioe r) (pin r)]
      /\ heap w' = heap w)
  /\ (forall value, exists w',
      gplh_write E p value w = Ret (ioe_writepin E w (ioe r) (pin r) value) w'
      /\ trace w' = trace w ++ [EvWritePin (ioe r) (pin r) value]
      /\ heap w' = heap w).
Proof.
  intros Hl. split; [|intros value]; eexists.
  - split; [exact (gplh_read_run w p r Hl)|]. now split.
  - split; [exact (gplh_write_run w p r value Hl)|]. now split.
Qed.

Lemma pinset_of_single_bit pin_ :
  0 <= pin_ < ioe_pinset_bits cfg ->
  forall i, Z.testbit (pinset_of cfg pin_) i = (i =? pin_).
Proof.
  intros Hpin i. unfold pinset_of.
  rewrite Z.land_spec, Z.shiftl_1_l.
  destruct (Z.ltb_spec i 0) as [Hneg|Hnn].
  - rewrite (Z.testbit_neg_r _ i Hneg). cbn [andb].
    symmetry. apply Z.eqb_neq. lia.
  - rewrite Z.pow2_bits_eqb by lia. rewrite (Z.eqb_sym pin_ i).
    destruct (Z.eqb_spec i pin_) as [->|Hne]; cbn [andb]; [|reflexivity].
    apply Z.ones_spec_low. lia.
Qed.

(** What [gplh_enable] does when its assertion passes, as an
    equation. *)
Lemma gplh_enable_run w p r en :
  live w p r ->
  gplh_enable cfg E p en w =
    if en then
      if is_null (callback r) then Ret (- EPERM) w
      else if is_null (handle r) then
        let pinset := pinset_of cfg (pin r) in
        let h := ioe_attach E w (ioe r) pinset fn_gplh_handler p in
        Ret (if is_null h then - EIO else OK)
            (with_heap (insert p (set_handle h r))
               (log (EvAttach (ioe r) pinset fn_gplh_handler p) w))
      else Ret OK w
    else
      if is_null (handle r) then Ret OK w
      else
        Ret (ioe_detach E w (ioe r) (handle r))
            (with_heap (insert p (set_handle NULL r))
               (log (EvDetach (ioe r) (handle r)) w)).
Proof.
  intros Hl. pose proof Hl as (Hp & Hr & Hi).
  unfold gplh_enable, priv_of.
  rewrite (bind_Ret _ _ _ _ _ (assert_priv_ioe_live _ _ _ Hl)).
  destruct en.
  - destruct (is_null (callback r)); [reflexivity|].
    destruct (is_null (handle r)); [|reflexivity].
    cbv zeta. unfold IOEP_ATTACH at 1. unfold bind at 1.
    erewrite bind_Ret by (apply modify_Some; exact Hr).
    now destruct (is_null _).
  - destruct (is_null (handle r)); [reflexivity|].
    unfold IOEP_DETACH at 1. unfold bind at 1.
    now erewrite bind_Ret by (apply modify_Some; exact Hr).
Qed.

(** C3 -- enabling while no callback is attached: the call returns
    [-EPERM] and the state after the call is the state before it, so no
    record changed and the expander was not called. *)
Theorem gplh_enable_before_attach w p r :
  live w p r ->
  callback r = NULL ->
  gplh_enable cfg E p true w = Ret (- EPERM) w.
Proof.
  intros Hl Hcb. rewrite (gplh_enable_run w p r true Hl).
  apply is_null_true in Hcb. now rewrite Hcb.
Qed.

(** C4 -- enabling a detached pin that has a callback: one call to the
    expander's attach method, with a pin set whose only bit is bit
    [pin], the function [gplh_handler] and the driver record as
    argument.  A non-null answer is stored in [handle] and the call
    returns OK; a null answer gives [-EIO] and the record is as it
    was. *)
Theorem gplh_enable_attaches w p r :
  live w p r ->
  callback r <> NULL ->
  handle r = NULL ->
  0 <= pin r < ioe_pinset_bits cfg ->
  let pinset := pinset_of cfg (pin r) in
  let h := ioe_attach E w (ioe r) pinset fn_gplh_handler p in
  (forall i, Z.testbit pinset i = (i =? pin r))
  /\ exists res w',
      gplh_enable cfg E p true w = Ret res w'
      /\ trace w' = trace w ++ [EvAttach (ioe r) pinset fn_gplh_handler p]
      /\ (h <> NULL ->
          res = OK /\ heap w' = <[p := set_handle h r]> (heap w)
          /\ handle (set_handle h r) <> NULL)
      /\ (h = NULL -> res = - EIO /\ heap w' = heap w).
Proof.
  intros Hl Hcb Hh Hpin pinset h.
  split; [now apply pinset_of_single_bit|].
  pose proof Hl as (Hp & Hr & Hi).
  pose proof (gplh_enable_run w p r true Hl) as Hrun.
  apply is_null_false in Hcb. rewrite Hcb in Hrun.
  rewrite (proj2 (is_null_true _) Hh) in Hrun.
  cbv zeta in Hrun. fold pinset in Hrun. fold h in Hrun.
  eexists _, _. split; [exact Hrun|]. split; [reflexivity|].
  split; intros Hnull.
  - apply is_null_false in Hnull. rewrite Hnull.
    apply is_null_false in Hnull. now repeat split.
  - rewrite (proj2 (is_null_true _) Hnull). split; [reflexivity|].
    cbn [heap with_heap log]. rewrite Hnull, <- Hh, set_handle_id.
    now apply insert_id.
Qed.

(** C5 -- [gplh_enable] is idempotent in both directions.  On an attached
    pin (whose callback is then set, as it is in every state the
    interface can reach) enabling returns OK and leaves the whole state,
    trace included, as it was; on a detached pin so does disabling. *)
Theorem gplh_enable_idempotent w p r :
  live w p r ->
  (handle r <> NULL -> callback r <> NULL) ->
  (handle r <> NULL -> gplh_enable cfg E p true w = Ret OK w)
  /\ (handle r = NULL -> gplh_enable cfg E p false w = Ret OK w).
Proof.
  intros Hl Hinv. split; intros Hh.
  - specialize (Hinv Hh). apply is_null_false in Hinv, Hh.
    rewrite (gplh_enable_run w p r true Hl). now rewrite Hinv, Hh.
  - apply is_null_true in Hh.
    rewrite (gplh_enable_run w p r false Hl). now rewrite Hh.
Qed.

(** C6 -- disabling an attached pin: one call to the expander's detach
    method with the stored handle; [handle] is set to NULL whatever that
    call answers, and its answer is the return value. *)
Theorem gplh_enable_detaches w p r :
  live w p r ->
  handle r <> NULL ->
  let d := ioe_detach E w (ioe r) (handle r) in
  exists w',
    gplh_enable cfg E p false w = Ret d w'
    /\ trace w' = trace w ++ [EvDetach (ioe r) (handle r)]
    /\ heap w' = <[p := set_handle NULL r]> (heap w)
    /\ handle (set_handle NULL r) = NULL.
Proof.
  intros Hl Hh d. apply is_null_false in Hh.
  pose proof (gplh_enable_run w p r false Hl) as Hrun.
  rewrite Hh in Hrun. fold d in Hrun.
  eexists. split; [exact Hrun|]. now repeat split.
Qed.

(** What one [gplh_attach] does, as an equation. *)
Lemma gplh_attach_run w p r C :
  live w p r ->
  gplh_attach E p C w =
    Ret OK (with_heap (insert p (set_callback C (set_handle NULL r)))
              (if is_null (handle r) then w
               else log (EvDetach (ioe r) (handle r)) w)).
Proof.
  intros Hl. pose proof Hl as (Hp & Hr & Hi).
  unfold gplh_attach, priv_of.
  rewrite (bind_Ret _ _ _ _ _ (assert_priv_ioe_live _ _ _ Hl)).
  destruct (is_null (handle r)) eqn:Hh; cbn [negb].
  - unfold ret at 1. unfold bind at 1.
    erewrite bind_Ret by (apply modify_Some; exact Hr).
    apply is_null_true in Hh. unfold ret.
    now rewrite <- Hh, set_handle_id.
  - unfold IOEP_DETACH at 1. unfold bind at 1 2.
    erewrite modify_Some by exact Hr.
    erewrite bind_Ret
      by (apply modify_Some; cbn [heap with_heap log]; apply lookup_insert_eq).
    unfold ret, with_heap. cbn [heap trace log].
    now rewrite insert_insert_eq.
Qed.

(** C7 -- [gplh_attach] with any callback value [C], NULL included: the
    expander's detach method is called, once and with the stored handle,
    exactly when [handle] is non-null; [handle] ends NULL, [callback]
    ends [C], and the call returns OK whatever detach answered.  A second
    [gplh_attach] right after it makes no expander call at all and leaves
    its own callback stored, so the pair makes no detach call when the
    pin was detached to begin with. *)
Theorem gplh_attach_replaces w p r C :
  live w p r ->
  exists w',
    gplh_attach E p C w = Ret OK w'
    /\ heap w' = <[p := set_callback C (set_handle NULL r)]> (heap w)
    /\ (handle r <> NULL -> trace w' = trace w ++ [EvDetach (ioe r) (handle r)])
    /\ (handle r = NULL -> trace w' = trace w)
    /\ forall C2, exists w'',
        gplh_attach E p C2 w' = Ret OK w''
        /\ trace w'' = trace w'
        /\ heap w'' !! p = Some (set_callback C2 (set_handle NULL r)).
Proof.
  intros Hl. pose proof Hl as (Hp & Hr & Hi).
  eexists. split; [exact (gplh_attach_run w p r C Hl)|].
  split; [now destruct (is_null (handle r))|]. split; [|split].
  - intros Hh. apply is_null_false in Hh. now rewrite Hh.
  - intros Hh. apply is_null_true in Hh. now rewrite Hh.
  - intros C2. eexists. split.
    + apply (gplh_attach_run _ p (set_callback C (set_handle NULL r))).
      repeat split; [exact Hp| |exact Hi].
      cbn [heap with_heap]. apply lookup_insert_eq.
    + split; [reflexivity|]. cbn [heap with_heap].
      apply lookup_insert_eq.
Qed.

(** What [gplh_handler] does when its assertion passes, as an
    equation. *)
Lemma gplh_handler_run w dev pinset arg r :
  arg <> NULL ->
  heap w !! arg = Some r ->
  callback r <> NULL ->
  gplh_handler E dev pinset arg w
    = Ret (pin_interrupt E w (callback r) (gpio_of arg))
          (log (EvCallback (callback r) (gpio_of arg)) w).
Proof.
  intros Ha Hr Hcb. apply is_null_false in Ha, Hcb.
  unfold gplh_handler. unfold bind at 1. unfold DEBUGASSERT at 1.
  rewrite Ha. cbn [negb].
  rewrite (bind_Ret _ _ _ _ _ (load_Some _ _ _ Hr)).
  unfold bind, DEBUGASSERT. now rewrite Hcb.
Qed.

(** C9 -- the interrupt function, called with a driver record as its
    argument: it calls the record's callback with the address of the
    record's [gpio] member, whatever pin set the expander passed, and
    returns what the callback returns. *)
Theorem gplh_handler_forwards w dev pinset arg r :
  arg <> NULL ->
  heap w !! arg = Some r ->
  callback r <> NULL ->
  (exists w',
      gplh_handler E dev pinset arg w
        = Ret (pin_interrupt E w (callback r) (gpio_of arg)) w'
      /\ trace w' = trace w ++ [EvCallback (callback r) (gpio_of arg)]
      /\ heap w' = heap w)
  /\ (forall pinset',
        gplh_handler E dev pinset' arg w = gplh_handler E dev pinset arg w).
Proof.
  intros Ha Hr Hcb. split.
  - exists (log (EvCallback (callback r) (gpio_of arg)) w).
    split; [|split; reflexivity].
    now apply gplh_handler_run.
  - intros pinset'. now rewrite !(gplh_handler_run _ _ _ arg r).
Qed.

(** *** The constructor *)

(** What a call of [gpio_lower_half] that passes its entry assertion
    does, as an equation. *)
Lemma gpio_lower_half_run w ioe_ pin_ pintype minor :
  ioe_ <> NULL ->
  pin_ < CONFIG_IOEXPANDER_NPINS cfg ->
  uint pintype < GPIO_NPINTYPES cfg ->
  gpio_lower_half cfg E ioe_ pin_ pintype minor w =
    let p := zalloc E w in
    if is_null p then Ret (- ENOMEM) (log EvZalloc w)
    else
      let w2 := with_heap (insert p (gplh_created pin_ pintype)) (log EvZalloc w) in
      let res := pin_register E w2 (gpio_of p) minor in
      let w3 := log (EvRegister (gpio_of p) minor) w2 in
      if res <? 0 then Ret res (with_heap (delete p) (log (EvFree p) w3))
      else Ret res w3.
Proof.
  intros Hi Hpin Hty. cbv zeta.
  apply is_null_false in Hi. apply Z.ltb_lt in Hpin, Hty.
  unfold gpio_lower_half. unfold bind at 1. unfold DEBUGASSERT at 1.
  rewrite Hi, Hpin, Hty. cbn [negb andb].
  unfold bind at 1. unfold kmm_zalloc at 1.
  destruct (is_null (zalloc E w)) eqn:Hz.
  - change (is_null NULL) with true. cbv iota. reflexivity.
  - rewrite Hz. unfold gpio_of, priv_of.
    erewrite bind_Ret
      by (apply modify_Some; cbn [heap with_heap log]; apply lookup_insert_eq).
    erewrite bind_Ret
      by (apply modify_Some; cbn [heap with_heap log]; apply lookup_insert_eq).
    erewrite bind_Ret
      by (apply modify_Some; cbn [heap with_heap log]; apply lookup_insert_eq).
    unfold with_heap. cbn [heap trace log]. rewrite !insert_insert_eq.
    unfold bind at 1. unfold gpio_pin_register at 1.
    fold (gplh_created pin_ pintype).
    destruct (_ <? 0); reflexivity.
Qed.

(** The pin number survives the conversion to [uint8_t]. *)
Lemma gplh_created_pin pin_ pintype :
  0 <= pin_ < 2 ^ 8 -> pin (gplh_created pin_ pintype) = pin_.
Proof. intros H. cbn [gplh_created set_gpio set_pin pin]. unfold uint8. now apply Z.mod_small. Qed.

(** C8 -- failures of the constructor.  When the allocator answers NULL
    the call returns [-ENOMEM] and no record exists that did not before.
    When registration answers a negative number the record is freed (the
    address holds no record afterwards) and that number is the return
    value. *)
Theorem gpio_lower_half_failures w ioe_ pin_ pintype minor :
  ioe_ <> NULL ->
  pin_ < CONFIG_IOEXPANDER_NPINS cfg ->
  uint pintype < GPIO_NPINTYPES cfg ->
  let p := zalloc E w in
  (p = NULL ->
     exists w',
       gpio_lower_half cfg E ioe_ pin_ pintype minor w = Ret (- ENOMEM) w'
       /\ heap w' = heap w
       /\ trace w' = trace w ++ [EvZalloc])
  /\ (p <> NULL ->
     exists w2 w',
       heap w2 = <[p := gplh_created pin_ pintype]> (heap w)
       /\ trace w2 = trace w ++ [EvZalloc]
       /\ let res := pin_register E w2 (gpio_of p) minor in
          gpio_lower_half cfg E ioe_ pin_ pintype minor w = Ret res w'
          /\ (res < 0 ->
              trace w' = trace w2 ++ [EvRegister (gpio_of p) minor; EvFree p]
              /\ heap w' = delete p (heap w)
              /\ heap w' !! p = None)).
Proof.
  intros Hi Hpin Hty p.
  pose proof (gpio_lower_half_run w ioe_ pin_ pintype minor Hi Hpin Hty) as Hrun.
  cbv zeta in Hrun. fold p in Hrun. split; intros Hp.
  - apply is_null_true in Hp. rewrite Hp in Hrun.
    eexists. split; [exact Hrun|]. split; reflexivity.
  - apply is_null_false in Hp. rewrite Hp in Hrun.
    exists (with_heap (insert p (gplh_created pin_ pintype)) (log EvZalloc w)).
    destruct (Z.ltb_spec
                (pin_register E
                   (with_heap (insert p (gplh_created pin_ pintype)) (log EvZalloc w))
                   (gpio_of p) minor) 0) as [Hneg|Hpos].
    + eexists. split; [reflexivity|]. split; [reflexivity|].
      cbv zeta. split; [exact Hrun|]. intros _.
      cbn [heap trace with_heap log]. rewrite <- app_assoc.
      split; [reflexivity|]. rewrite delete_insert_eq.
      split; [reflexivity|]. apply lookup_delete_eq.
    + eexists. split; [reflexivity|]. split; [reflexivity|].
      cbv zeta. split; [exact Hrun|]. intros Hneg. lia.
Qed.

(** *** The interrupt invariant *)

Lemma world_inv_insert w w' p r :
  world_inv w -> irq_inv r -> heap w' = <[p := r]> (heap w) -> world_inv w'.
Proof.
  intros Hw Hr Hh q rq Hq. rewrite Hh in Hq.
  destruct (decide (p = q)) as [->|Hne].
  - rewrite lookup_insert_eq in Hq. now inversion Hq; subst.
  - rewrite lookup_insert_ne in Hq by exact Hne. now apply (Hw q).
Qed.

Lemma world_inv_delete w w' p :
  world_inv w -> heap w' = delete p (heap w) -> world_inv w'.
Proof.
  intros Hw Hh q rq Hq. rewrite Hh in Hq.
  destruct (decide (p = q)) as [->|Hne].
  - now rewrite lookup_delete_eq in Hq.
  - rewrite lookup_delete_ne in Hq by exact Hne. now apply (Hw q).
Qed.

Lemma world_inv_same w w' :
  world_inv w -> heap w' = heap w -> world_inv w'.
Proof. intros Hw Hh q rq Hq. rewrite Hh in Hq. now apply (Hw q). Qed.

Lemma irq_inv_created pin_ pintype : irq_inv (gplh_created pin_ pintype).
Proof. intros Hh. now contradict Hh. Qed.

Lemma gpio_lower_half_inv ioe_ pin_ pintype minor w res w' :
  gpio_lower_half cfg E ioe_ pin_ pintype minor w = Ret res w' ->
  world_inv w -> world_inv w'.
Proof.
  intros Hrun Hw.
  destruct (is_null ioe_) eqn:Hi;
    [unfold gpio_lower_half, bind, DEBUGASSERT in Hrun; now rewrite Hi in Hrun|].
  destruct (pin_ <? CONFIG_IOEXPANDER_NPINS cfg) eqn:Hpin;
    [|unfold gpio_lower_half, bind, DEBUGASSERT in Hrun;
      now rewrite Hi, Hpin in Hrun].
  destruct (uint pintype <? GPIO_NPINTYPES cfg) eqn:Hty;
    [|unfold gpio_lower_half, bind, DEBUGASSERT in Hrun;
      now rewrite Hi, Hpin, Hty in Hrun].
  apply is_null_false in Hi. apply Z.ltb_lt in Hpin, Hty.
  rewrite (gpio_lower_half_run _ _ _ _ _ Hi Hpin Hty) in Hrun. cbv zeta in Hrun.
  destruct (is_null (zalloc E w)).
  - inversion Hrun; subst. now apply (world_inv_same w).
  - assert (Hw2 : world_inv
                    (with_heap (insert (zalloc E w) (gplh_created pin_ pintype))
                       (log EvZalloc w))).
    { apply (world_inv_insert w _ (zalloc E w) (gplh_created pin_ pintype));
        [exact Hw|apply irq_inv_created|reflexivity]. }
    destruct (_ <? 0); inversion Hrun; subst.
    + eapply world_inv_delete; [exact Hw2|reflexivity].
    + eapply world_inv_same; [exact Hw2|reflexivity].
Qed.

Lemma run_call_inv c g w w' :
  run_call cfg E c g w = Ret tt w' -> world_inv w -> world_inv w'.
Proof.
  intros Hrun Hw. destruct c; cbn [run_call g_gplh_ops go_read go_write go_attach go_enable] in Hrun;
    apply bind_inv in Hrun as (a & w1 & Hop & Hret);
    unfold ret in Hret; inversion Hret; subst w1; clear Hret.
  - unfold gplh_read, priv_of in Hop.
    apply bind_inv in Hop as (r & w1 & Ha & Hop).
    apply assert_priv_ioe_inv in Ha as [_ ->].
    unfold IOEXP_READPIN in Hop. inversion Hop; subst.
    now apply (world_inv_same w).
  - unfold gplh_write, priv_of in Hop.
    apply bind_inv in Hop as (r & w1 & Ha & Hop).
    apply assert_priv_ioe_inv in Ha as [_ ->].
    unfold IOEXP_WRITEPIN in Hop. inversion Hop; subst.
    now apply (world_inv_same w).
  - pose proof Hop as Ha. unfold gplh_attach, priv_of in Ha.
    apply bind_inv in Ha as (r & w1 & Ha & _).
    apply assert_priv_ioe_inv in Ha as [Hl ->].
    rewrite (gplh_attach_run _ _ _ _ Hl) in Hop. inversion Hop; subst.
    apply (world_inv_insert w _ g (set_callback cb (set_handle NULL r))).
    + exact Hw.
    + intros Hh. now contradict Hh.
    + now destruct (is_null (handle r)).
  - pose proof Hop as Ha. unfold gplh_enable, priv_of in Ha.
    apply bind_inv in Ha as (r & w1 & Ha & _).
    apply assert_priv_ioe_inv in Ha as [Hl ->].
    pose proof Hl as (Hp & Hr & Hi).
    rewrite (gplh_enable_run _ _ _ _ Hl) in Hop.
    destruct enable.
    + destruct (is_null (callback r)) eqn:Hcb;
        [inversion Hop; subst; exact Hw|].
      destruct (is_null (handle r)) eqn:Hh;
        [|inversion Hop; subst; exact Hw].
      cbv zeta in Hop. inversion Hop; subst.
      eapply world_inv_insert; [exact Hw| |reflexivity].
      intros _. cbn [callback set_handle]. now apply is_null_false.
    + destruct (is_null (handle r)) eqn:Hh;
        [inversion Hop; subst; exact Hw|].
      inversion Hop; subst.
      eapply world_inv_insert; [exact Hw| |reflexivity].
      intros Hn. now contradict Hn.
Qed.

Lemma run_call_total c p r w :
  live w p r -> exists w', run_call cfg E c p w = Ret tt w'.
Proof.
  intros Hl.
  destruct c; cbn [run_call g_gplh_ops go_read go_write go_attach go_enable];
    unfold bind.
  - rewrite (gplh_read_run w p r Hl). now eexists.
  - rewrite (gplh_write_run w p r value Hl). now eexists.
  - rewrite (gplh_attach_run w p r cb Hl). now eexists.
  - rewrite (gplh_enable_run w p r enable Hl).
    destruct enable, (is_null (callback r)), (is_null (handle r));
      now eexists.
Qed.

Lemma gplh_handler_inv dev pinset arg w res w' :
  gplh_handler E dev pinset arg w = Ret res w' -> heap w' = heap w.
Proof.
  unfold gplh_handler. intros H.
  apply bind_inv in H as (u & w1 & Hp & H).
  unfold DEBUGASSERT in Hp. destruct (negb _); [|discriminate].
  inversion Hp; subst.
  apply bind_inv in H as (r & w2 & Hl & H).
  apply load_inv in Hl as [_ ->].
  apply bind_inv in H as (u' & w3 & Hc & H).
  unfold DEBUGASSERT in Hc. destruct (negb _); [|discriminate].
  inversion Hc; subst.
  unfold call_callback in H. now inversion H.
Qed.

Lemma step_inv w w' : step cfg E w w' -> world_inv w -> world_inv w'.
Proof.
  intros Hs Hw. destruct Hs as [? ? ? ? ? ? ? H|? ? ? ? H|f dev pinset arg res w w' H].
  - exact (gpio_lower_half_inv _ _ _ _ _ _ _ H Hw).
  - exact (run_call_inv _ _ _ _ H Hw).
  - destruct f. apply (world_inv_same w); [exact Hw|].
    exact (gplh_handler_inv dev pinset arg w res w' H).
Qed.

(** C10 -- "a non-null [handle] comes with a non-null [callback]" holds
    of every driver record in every state that constructions, calls
    through the operation table and delivered interrupts lead to, from
    any state in which it holds (the state with no record at all is
    one; [gpio_lower_half] adds records with both fields NULL).  So
    wherever a record at a non-null address holds a handle, the
    assertion of [gplh_handler] passes and the callback is called.
    From such a state every read, write, attach and enable on a record
    that passes the entry assertion runs to its end, and the property
    holds again afterwards. *)
Theorem irq_invariant_reachable w0 w :
  world_inv w0 ->
  rtc (step cfg E) w0 w ->
  world_inv w
  /\ (forall p r dev pinset,
        p <> NULL -> heap w !! p = Some r -> handle r <> NULL ->
        callback r <> NULL
        /\ exists w',
            gplh_handler E dev pinset p w
              = Ret (pin_interrupt E w (callback r) (gpio_of p)) w')
  /\ (forall c p r,
        live w p r ->
        exists w', run_call cfg E c p w = Ret tt w' /\ world_inv w').
Proof.
  intros H0 Hreach.
  assert (Hw : world_inv w).
  { induction Hreach as [|x y z Hxy _ IH]; [exact H0|].
    apply IH. exact (step_inv _ _ Hxy H0). }
  split; [exact Hw|]. split.
  - intros p r dev pinset Hp Hr Hh.
    pose proof (Hw p r Hr Hh) as Hcb. split; [exact Hcb|].
    eexists. exact (gplh_handler_run w dev pinset p r Hp Hr Hcb).
  - intros c p r Hl. destruct (run_call_total c p r w Hl) as [w' Hrun].
    exists w'. split; [exact Hrun|]. exact (run_call_inv c p w w' Hrun Hw).
Qed.

End DriverFacts.

(** ** The board at work *)

(** C1 -- a construction that succeeds: expander 8192, pin 3, pin type
    2, minor 0, memory at 4096.  The record that is registered has
    [pin], the pin type and the operation table set, yet its [ioe] field
    is still NULL rather than 8192: the constructor never stores its
    [ioe] argument.  The first [gplh_read] on the new device then fails
    the assertion [priv->ioe != NULL]. *)
Theorem gpio_lower_half_leaves_ioe_null :
  exists w',
    gpio_lower_half board_cfg (board 77 0 0 4096) 8192 3 2 0 empty_world
      = Ret OK w'
    /\ trace w' = [EvZalloc; EvRegister 4096 0]
    /\ heap w' !! 4096
       = Some {| gpio := {| gp_pintype := 2; gp_ops := ops_g_gplh_ops |};
                 pin := 3; ioe := NULL; handle := NULL; callback := NULL |}
    /\ gplh_read (board 77 0 0 4096) 4096 w' = Abort.
Proof.
  eexists. split.
  - rewrite gpio_lower_half_run; [|discriminate|reflexivity|reflexivity].
    reflexivity.
  - split; [reflexivity|]. split.
    + cbn [heap with_heap log board zalloc]. apply lookup_insert_eq.
    + unfold gplh_read, assert_priv_ioe, priv_of.
      apply bind_Abort. unfold bind at 1. unfold DEBUGASSERT at 1.
      change (negb (is_null 4096)) with true. cbv iota.
      erewrite bind_Ret
        by (apply load_Some; cbn [heap with_heap log board zalloc];
            apply lookup_insert_eq).
      reflexivity.
Qed.

Lemma pin3_live h cb : live (pin3_world h cb) 4096 (pin3 h cb).
Proof.
  split; [discriminate|]. split; [apply lookup_singleton_eq|discriminate].
Defined.

Lemma gplh_read_write_forward_witness :
  exists w',
    gplh_read (board 77 0 0 4096) 4096 (pin3_world NULL NULL)
      = Ret (OK, Some true) w'
    /\ trace w' = [EvReadPin 8192 3]
    /\ heap w' = heap (pin3_world NULL NULL).
Proof.
  exact (proj1 (gplh_read_write_forward (board 77 0 0 4096)
                  (pin3_world NULL NULL) 4096 (pin3 NULL NULL)
                  (pin3_live NULL NULL))).
Defined.

Lemma gplh_enable_before_attach_witness :
  gplh_enable board_cfg (board 77 0 0 4096) 4096 true (pin3_world NULL NULL)
    = Ret (- EPERM) (pin3_world NULL NULL).
Proof.
  apply (gplh_enable_before_attach board_cfg (board 77 0 0 4096)
           (pin3_world NULL NULL) 4096 (pin3 NULL NULL)).
  - apply pin3_live.
  - reflexivity.
Defined.

Lemma gplh_enable_attaches_witness :
  (forall i, Z.testbit 8 i = (i =? 3))
  /\ exists res w',
      gplh_enable board_cfg (board 77 0 0 4096) 4096 true (pin3_world NULL 12288)
        = Ret res w'
      /\ trace w' = [EvAttach 8192 8 fn_gplh_handler 4096]
      /\ (77 <> NULL ->
          res = OK
          /\ heap w' = <[4096 := pin3 77 12288]> (heap (pin3_world NULL 12288))
          /\ 77 <> NULL)
      /\ (77 = NULL -> res = - EIO /\ heap w' = heap (pin3_world NULL 12288)).
Proof.
  apply (gplh_enable_attaches board_cfg (board 77 0 0 4096)
           (pin3_world NULL 12288) 4096 (pin3 NULL 12288)).
  - apply pin3_live.
  - discriminate.
  - reflexivity.
  - cbn. lia.
Defined.

Lemma gplh_enable_idempotent_witness :
  (77 <> NULL ->
   gplh_enable board_cfg (board 77 0 0 4096) 4096 true (pin3_world 77 12288)
     = Ret OK (pin3_world 77 12288))
  /\ (77 = NULL ->
      gplh_enable board_cfg (board 77 0 0 4096) 4096 false (pin3_world 77 12288)
        = Ret OK (pin3_world 77 12288)).
Proof.
  apply (gplh_enable_idempotent board_cfg (board 77 0 0 4096)
           (pin3_world 77 12288) 4096 (pin3 77 12288)).
  - apply pin3_live.
  - intros _. discriminate.
Defined.

Lemma gplh_enable_detaches_witness :
  exists w',
    gplh_enable board_cfg (board 77 (- EIO) 0 4096) 4096 false (pin3_world 77 12288)
      = Ret (- EIO) w'
    /\ trace w' = [EvDetach 8192 77]
    /\ heap w' = <[4096 := pin3 NULL 12288]> (heap (pin3_world 77 12288))
    /\ NULL = NULL.
Proof.
  apply (gplh_enable_detaches board_cfg (board 77 (- EIO) 0 4096)
           (pin3_world 77 12288) 4096 (pin3 77 12288)).
  - apply pin3_live.
  - discriminate.
Defined.

Lemma gplh_attach_replaces_witness :
  exists w',
    gplh_attach (board 77 (- EIO) 0 4096) 4096 NULL (pin3_world 77 12288)
      = Ret OK w'
    /\ heap w' = <[4096 := pin3 NULL NULL]> (heap (pin3_world 77 12288))
    /\ (77 <> NULL -> trace w' = [EvDetach 8192 77])
    /\ (77 = NULL -> trace w' = [])
    /\ forall C2, exists w'',
        gplh_attach (board 77 (- EIO) 0 4096) 4096 C2 w' = Ret OK w''
        /\ trace w'' = trace w'
        /\ heap w'' !! 4096 = Some (pin3 NULL C2).
Proof.
  apply (gplh_attach_replaces (board 77 (- EIO) 0 4096)
           (pin3_world 77 12288) 4096 (pin3 77 12288) NULL).
  apply pin3_live.
Defined.

Lemma gplh_handler_forwards_witness :
  exists w',
    gplh_handler (board 77 0 0 4096) 8192 8 4096 (pin3_world 77 12288)
      = Ret 4096 w'
    /\ trace w' = [EvCallback 12288 4096]
    /\ heap w' = heap (pin3_world 77 12288).
Proof.
  apply (proj1 (gplh_handler_forwards (board 77 0 0 4096)
                  (pin3_world 77 12288) 8192 8 4096 (pin3 77 12288)
                  ltac:(discriminate) (lookup_singleton_eq _ _)
                  ltac:(discriminate))).
Defined.

Lemma gpio_lower_half_failures_witness :
  (exists w',
      gpio_lower_half board_cfg (board 77 0 0 NULL) 8192 3 2 0 empty_world
        = Ret (- ENOMEM) w'
      /\ heap w' = heap empty_world
      /\ trace w' = [EvZalloc])
  /\ (exists w2 w',
         heap w2 = <[4096 := gplh_created 3 2]> (heap empty_world)
         /\ trace w2 = [EvZalloc]
         /\ gpio_lower_half board_cfg (board 77 0 (-17) 4096) 8192 3 2 0 empty_world
            = Ret (-17) w'
         /\ (-17 < 0 ->
             trace w' = trace w2 ++ [EvRegister 4096 0; EvFree 4096]
             /\ heap w' = delete 4096 (heap empty_world)
             /\ heap w' !! 4096 = None)).
Proof.
  split.
  - apply (gpio_lower_half_failures board_cfg (board 77 0 0 NULL)
             empty_world 8192 3 2 0);
      [discriminate|reflexivity|reflexivity|reflexivity].
  - apply (gpio_lower_half_failures board_cfg (board 77 0 (-17) 4096)
             empty_world 8192 3 2 0);
      [discriminate|reflexivity|reflexivity|discriminate].
Defined.

Lemma irq_invariant_reachable_witness :
  exists w,
    rtc (step board_cfg (board 77 0 0 4096)) (pin3_world NULL NULL) w
    /\ heap w !! 4096 = Some (pin3 77 12288)
    /\ world_inv w
    /\ 12288 <> NULL
    /\ exists w',
        gplh_handler (board 77 0 0 4096) 8192 8 4096 w = Ret 4096 w'.
Proof.
  set (E := board 77 0 0 4096).
  set (w1 := with_heap (insert 4096 (pin3 NULL 12288)) (pin3_world NULL NULL)).
  set (w2 := with_heap (insert 4096 (pin3 77 12288))
               (log (EvAttach 8192 8 fn_gplh_handler 4096) w1)).
  assert (H1 : run_call board_cfg E (call_attach 12288) 4096 (pin3_world NULL NULL)
               = Ret tt w1).
  { cbn [run_call g_gplh_ops go_attach].
    unfold bind.
    rewrite (gplh_attach_run E _ 4096 (pin3 NULL NULL) 12288 (pin3_live NULL NULL)).
    reflexivity. }
  assert (Hl1 : live w1 4096 (pin3 NULL 12288)).
  { split; [discriminate|]. split; [apply lookup_insert_eq|discriminate]. }
  assert (H2 : run_call board_cfg E (call_enable true) 4096 w1 = Ret tt w2).
  { cbn [run_call g_gplh_ops go_enable].
    unfold bind.
    rewrite (gplh_enable_run board_cfg E w1 4096 (pin3 NULL 12288) true Hl1).
    reflexivity. }
  assert (Hreach : rtc (step board_cfg E) (pin3_world NULL NULL) w2).
  { eapply rtc_l; [exact (step_call _ _ _ _ _ _ H1)|].
    eapply rtc_l; [exact (step_call _ _ _ _ _ _ H2)|]. apply rtc_refl. }
  assert (H0 : world_inv (pin3_world NULL NULL)).
  { intros p r Hr Hh. cbn [heap pin3_world] in Hr.
    apply lookup_singleton_Some in Hr as [_ <-].
    now contradict Hh. }
  assert (Hr2 : heap w2 !! 4096 = Some (pin3 77 12288))
    by apply lookup_insert_eq.
  destruct (irq_invariant_reachable board_cfg E (pin3_world NULL NULL) w2
              H0 Hreach) as (Hw & Hirq & _).
  destruct (Hirq 4096 (pin3 77 12288) 8192 8) as [Hcb Hrun];
    [discriminate|exact Hr2|discriminate|].
  exists w2.
  exact (conj Hreach (conj Hr2 (conj Hw (conj Hcb Hrun)))).
Defined.

(** ** More about the methods *)

Section DriverMore.

Variable cfg : config.
Variable E : collab.

(** What any one call through the operation table does to a record that
    passes the entry assertion. *)
Lemma run_call_effect c p r w :
  live w p r ->
  exists r' evs,
    run_call cfg E c p w
      = Ret tt {| heap := <[p := r']> (heap w); trace := trace w ++ evs |}
    /\ gpio r' = gpio r /\ pin r' = pin r /\ ioe r' = ioe r
    /\ (length evs <= 1)%nat
    /\ Forall (fun e => event_dev e = Some (ioe r)) evs
    /\ (handle r' = handle r \/ handle r' = NULL
        \/ evs = [EvAttach (ioe r) (pinset_of cfg (pin r)) fn_gplh_handler p]).
Proof.
  intros Hl. pose proof Hl as (Hp & Hr & Hi).
  assert (Hsame : w = {| heap := <[p := r]> (heap w); trace := trace w ++ [] |}).
  { rewrite app_nil_r, (insert_id _ _ _ Hr). now destruct w. }
  destruct c; cbn [run_call g_gplh_ops go_read go_write go_attach go_enable];
    unfold bind.
  - rewrite (gplh_read_run E w p r Hl).
    exists r, [EvReadPin (ioe r) (pin r)]. unfold ret, log.
    rewrite (insert_id _ _ _ Hr).
    repeat split; auto. 
  - rewrite (gplh_write_run E w p r value Hl).
    exists r, [EvWritePin (ioe r) (pin r) value]. unfold ret, log.
    rewrite (insert_id _ _ _ Hr).
    repeat split; auto.
  - rewrite (gplh_attach_run E w p r cb Hl).
    exists (set_callback cb (set_handle NULL r)).
    destruct (is_null (handle r)).
    + exists []. unfold ret, with_heap. rewrite app_nil_r.
      repeat split; auto.
    + exists [EvDetach (ioe r) (handle r)]. unfold ret, with_heap, log.
      cbn [heap trace]. repeat split; auto.
  - rewrite (gplh_enable_run cfg E w p r enable Hl).
    destruct enable.
    + destruct (is_null (callback r)).
      { exists r, []. unfold ret. rewrite <- Hsame. repeat split; auto. }
      destruct (is_null (handle r)).
      * cbv zeta. eexists (set_handle _ r), [_].
        unfold ret, with_heap, log. cbn [heap trace].
        split; [reflexivity|]. repeat split; auto.
      * exists r, []. unfold ret. rewrite <- Hsame. repeat split; auto.
    + destruct (is_null (handle r)).
      { exists r, []. unfold ret. rewrite <- Hsame. repeat split; auto. }
      exists (set_handle NULL r), [EvDetach (ioe r) (handle r)].
      unfold ret, with_heap, log. cbn [heap trace]. repeat split; auto.
Qed.

Lemma run_call_live c p w w' :
  run_call cfg E c p w = Ret tt w' -> exists r, live w p r.
Proof.
  intros Hrun.
  destruct c; cbn [run_call g_gplh_ops go_read go_write go_attach go_enable] in Hrun;
    apply bind_inv in Hrun as (a & w1 & Hop & _);
    [unfold gplh_read in Hop|unfold gplh_write in Hop
    |unfold gplh_attach in Hop|unfold gplh_enable in Hop];
    unfold priv_of in Hop;
    apply bind_inv in Hop as (r & w2 & Ha & _);
    apply assert_priv_ioe_inv in Ha as [Hl _]; now exists r.
Qed.

Lemma run_call_Abort c p w :
  (forall r, ~ live w p r) -> run_call cfg E c p w = Abort.
Proof.
  intros Hno. destruct (run_call cfg E c p w) as [|[] w'] eqn:Hrun;
    [reflexivity|].
  destruct (run_call_live c p w w' Hrun) as [r Hl]. now destruct (Hno r).
Qed.

(** X4 -- no method changes what the constructor set up.  After any
    call through the operation table on a device that passes the entry
    assertion, the record still has the same [gpio] member, [pin] and
    [ioe], so it passes the assertion again; and the record of every
    other device is as it was. *)
Theorem run_call_frame c p r w :
  live w p r ->
  exists w' r',
    run_call cfg E c p w = Ret tt w'
    /\ heap w' !! p = Some r'
    /\ gpio r' = gpio r /\ pin r' = pin r /\ ioe r' = ioe r
    /\ live w' p r'
    /\ forall q, q <> p -> heap w' !! q = heap w !! q.
Proof.
  intros Hl. pose proof Hl as (Hp & Hr & Hi).
  destruct (run_call_effect c p r w Hl)
    as (r' & evs & Hrun & Hg & Hpin & Hioe & _).
  eexists _, r'. split; [exact Hrun|]. cbn [heap].
  split; [apply lookup_insert_eq|]. do 3 (split; [assumption|]).
  split.
  - split; [exact Hp|]. split; [apply lookup_insert_eq|]. now rewrite Hioe.
  - intros q Hq. now apply lookup_insert_ne.
Qed.

(** X5 -- a call through the operation table runs to its end exactly
    when the entry assertion holds: the device pointer is non-null,
    points to a record, and the record's [ioe] is non-null.  In every
    other case the call stops at the assertion. *)
Theorem run_call_completes_iff c p w :
  ((exists w', run_call cfg E c p w = Ret tt w') <-> (exists r, live w p r))
  /\ ((forall r, ~ live w p r) -> run_call cfg E c p w = Abort).
Proof.
  assert (Hiff : (exists w', run_call cfg E c p w = Ret tt w')
                 <-> (exists r, live w p r)).
  { split.
    - intros [w' Hrun]. exact (run_call_live c p w w' Hrun).
    - intros [r Hl]. exact (run_call_total cfg E c p r w Hl). }
  split; [exact Hiff|]. apply run_call_Abort.
Qed.

(** X6 -- a method makes at most one call that leaves the file, and that
    call goes to the expander held in the record's [ioe]: never to
    another expander, the allocator, the registration or the consumer's
    callback. *)
Theorem run_call_one_expander_call c p r w :
  live w p r ->
  exists w' evs,
    run_call cfg E c p w = Ret tt w'
    /\ trace w' = trace w ++ evs
    /\ (length evs <= 1)%nat
    /\ forall e, In e evs -> event_dev e = Some (ioe r).
Proof.
  intros Hl.
  destruct (run_call_effect c p r w Hl)
    as (r' & evs & Hrun & _ & _ & _ & Hlen & Hall & _).
  eexists _, evs. split; [exact Hrun|]. split; [reflexivity|].
  split; [exact Hlen|]. exact (proj1 (List.Forall_forall _ evs) Hall).
Qed.

(** X12 -- pin sets of pins below the width of [ioe_pinset_t]: the pin
    set of pin [n] is 2^n, it fits the type, and two different pins have
    no bit in common, so no two pins share a pin set. *)
Theorem pinset_of_pins p1 p2 :
  0 <= p1 < ioe_pinset_bits cfg ->
  0 <= p2 < ioe_pinset_bits cfg ->
  pinset_of cfg p1 = 2 ^ p1
  /\ 0 < pinset_of cfg p1 < 2 ^ ioe_pinset_bits cfg
  /\ (p1 <> p2 -> Z.land (pinset_of cfg p1) (pinset_of cfg p2) = 0)
  /\ (pinset_of cfg p1 = pinset_of cfg p2 -> p1 = p2).
Proof.
  intros H1 H2.
  assert (Hval : forall n, 0 <= n < ioe_pinset_bits cfg ->
                           pinset_of cfg n = 2 ^ n).
  { intros n Hn. unfold pinset_of.
    rewrite Z.shiftl_1_l, Z.land_ones by lia.
    apply Z.mod_small. split; [apply Z.pow_nonneg; lia|].
    apply Z.pow_lt_mono_r; lia. }
  split; [now apply Hval|]. split.
  - rewrite (Hval p1 H1). split; [apply Z.pow_pos_nonneg; lia|].
    apply Z.pow_lt_mono_r; lia.
  - split.
    + intros Hne. apply Z.bits_inj'. intros i _.
      rewrite Z.land_spec, Z.bits_0.
      rewrite (pinset_of_single_bit cfg p1 H1), (pinset_of_single_bit cfg p2 H2).
      destruct (Z.eqb_spec i p1), (Z.eqb_spec i p2); try reflexivity. lia.
    + rewrite (Hval p1 H1), (Hval p2 H2). intros Heq.
      apply (Z.pow_inj_r 2); lia.
Qed.

Lemma gplh_handler_Ret_inv dev pinset arg w res w' :
  gplh_handler E dev pinset arg w = Ret res w' ->
  arg <> NULL /\ exists r, heap w !! arg = Some r /\ callback r <> NULL.
Proof.
  intros H. unfold gplh_handler in H.
  apply bind_inv in H as (u & w1 & Hp & H).
  unfold DEBUGASSERT in Hp.
  destruct (is_null arg) eqn:Ha; cbn [negb] in Hp; [discriminate|].
  inversion Hp; subst. apply is_null_false in Ha.
  apply bind_inv in H as (r & w2 & Hld & H).
  apply load_inv in Hld as [Hr ->].
  apply bind_inv in H as (u' & w3 & Hc & _).
  unfold DEBUGASSERT in Hc.
  destruct (is_null (callback r)) eqn:Hcb; cbn [negb] in Hc; [discriminate|].
  apply is_null_false in Hcb. split; [exact Ha|]. now exists r.
Qed.

(** X13 -- [gplh_handler] runs to its end exactly when its argument is a
    non-null pointer to a record whose callback is set; the record's
    [ioe] plays no part.  When it runs it calls the callback and nothing
    else, and changes no record. *)
Theorem gplh_handler_completes_iff dev pinset arg w :
  ((exists res w', gplh_handler E dev pinset arg w = Ret res w')
   <-> (arg <> NULL
        /\ exists r, heap w !! arg = Some r /\ callback r <> NULL))
  /\ (forall res w',
        gplh_handler E dev pinset arg w = Ret res w' ->
        heap w' = heap w
        /\ exists cb, cb <> NULL /\ trace w' = trace w ++ [EvCallback cb (gpio_of arg)]).
Proof.
  pose proof (gplh_handler_Ret_inv dev pinset arg w) as Hinv.
  split; [split|].
  - intros (res & w' & H). exact (Hinv res w' H).
  - intros (Ha & r & Hr & Hcb).
    eexists _, _. exact (gplh_handler_run E w dev pinset arg r Ha Hr Hcb).
  - intros res w' H. destruct (Hinv res w' H) as (Ha & r & Hr & Hcb).
    rewrite (gplh_handler_run E w dev pinset arg r Ha Hr Hcb) in H.
    inversion H; subst. split; [reflexivity|]. now exists (callback r).
Qed.

(** *** The constructor, continued *)

(** X1 -- a construction that succeeds.  With a pin and a pin type that
    fit [uint8_t], memory from the allocator and a registration that
    does not fail: the return value is the registration's answer, the
    calls made are one allocation followed by one registration of
    [&priv->gpio] under [minor] (nothing is freed), and the new record
    holds the given pin and pin type, the operation table [g_gplh_ops],
    and no handle and no callback. *)
Theorem gpio_lower_half_success w ioe_ pin_ pintype minor :
  ioe_ <> NULL ->
  0 <= pin_ < CONFIG_IOEXPANDER_NPINS cfg ->
  CONFIG_IOEXPANDER_NPINS cfg <= 2 ^ 8 ->
  0 <= pintype < GPIO_NPINTYPES cfg ->
  GPIO_NPINTYPES cfg <= 2 ^ 8 ->
  let p := zalloc E w in
  p <> NULL ->
  let w2 := with_heap (insert p (gplh_created pin_ pintype)) (log EvZalloc w) in
  let res := pin_register E w2 (gpio_of p) minor in
  0 <= res ->
  exists w',
    gpio_lower_half cfg E ioe_ pin_ pintype minor w = Ret res w'
    /\ trace w' = trace w ++ [EvZalloc; EvRegister (gpio_of p) minor]
    /\ heap w' = <[p := gplh_created pin_ pintype]> (heap w)
    /\ exists r,
        heap w' !! p = Some r
        /\ pin r = pin_
        /\ gp_pintype (gpio r) = pintype
        /\ deref_ops cfg E (gp_ops (gpio r)) = Some (g_gplh_ops cfg E)
        /\ handle r = NULL /\ callback r = NULL.
Proof.
  intros Hi Hpin Hn Hty Ht p Hp w2 res Hres.
  assert (Hu : uint pintype = pintype) by (unfold uint; apply Z.mod_small; lia).
  pose proof (gpio_lower_half_run cfg E w ioe_ pin_ pintype minor Hi
                (proj2 Hpin) ltac:(rewrite Hu; lia)) as Hrun.
  cbv zeta in Hrun. fold p in Hrun.
  rewrite (proj2 (is_null_false p) Hp) in Hrun. fold w2 in Hrun. fold res in Hrun.
  rewrite (proj2 (Z.ltb_ge res 0) Hres) in Hrun.
  eexists. split; [exact Hrun|].
  split; [cbn [trace log with_heap w2]; now rewrite <- app_assoc|].
  split; [reflexivity|].
  exists (gplh_created pin_ pintype).
  split; [cbn [heap log with_heap w2]; apply lookup_insert_eq|].
  split; [apply gplh_created_pin; lia|].
  split; [cbn; unfold uint8; apply Z.mod_small; lia|].
  now repeat split.
Qed.

(** X2 -- the device that a successful construction leaves behind has a
    NULL [ioe], whatever expander was passed in, and so every call
    through its operation table stops at the entry assertion. *)
Theorem gpio_lower_half_device_fails_assertion w ioe_ pin_ pintype minor :
  ioe_ <> NULL ->
  pin_ < CONFIG_IOEXPANDER_NPINS cfg ->
  uint pintype < GPIO_NPINTYPES cfg ->
  let p := zalloc E w in
  p <> NULL ->
  let w2 := with_heap (insert p (gplh_created pin_ pintype)) (log EvZalloc w) in
  let res := pin_register E w2 (gpio_of p) minor in
  0 <= res ->
  exists w',
    gpio_lower_half cfg E ioe_ pin_ pintype minor w = Ret res w'
    /\ (exists r, heap w' !! p = Some r /\ ioe r = NULL)
    /\ forall c, run_call cfg E c (gpio_of p) w' = Abort.
Proof.
  intros Hi Hpin Hty p Hp w2 res Hres.
  pose proof (gpio_lower_half_run cfg E w ioe_ pin_ pintype minor Hi Hpin Hty)
    as Hrun.
  cbv zeta in Hrun. fold p in Hrun.
  rewrite (proj2 (is_null_false p) Hp) in Hrun. fold w2 in Hrun. fold res in Hrun.
  rewrite (proj2 (Z.ltb_ge res 0) Hres) in Hrun.
  assert (Hr : heap w2 !! p = Some (gplh_created pin_ pintype))
    by (cbn [heap log with_heap w2]; apply lookup_insert_eq).
  eexists. split; [exact Hrun|]. split.
  - exists (gplh_created pin_ pintype). now split.
  - intros c. apply run_call_Abort. intros r (_ & Hr' & Hioe).
    cbn [heap log] in Hr'. unfold gpio_of in Hr'.
    rewrite Hr in Hr'. inversion Hr'; subst r.
    now apply Hioe.
Qed.

(** X3 -- whatever its outcome (no memory, registration refused, or
    success), a construction that passes its entry assertion leaves the
    record of every device other than the one at the allocator's answer
    as it was. *)
Theorem gpio_lower_half_frame w ioe_ pin_ pintype minor :
  ioe_ <> NULL ->
  pin_ < CONFIG_IOEXPANDER_NPINS cfg ->
  uint pintype < GPIO_NPINTYPES cfg ->
  exists res w',
    gpio_lower_half cfg E ioe_ pin_ pintype minor w = Ret res w'
    /\ forall q, q <> zalloc E w -> heap w' !! q = heap w !! q.
Proof.
  intros Hi Hpin Hty.
  rewrite (gpio_lower_half_run cfg E w ioe_ pin_ pintype minor Hi Hpin Hty).
  cbv zeta. destruct (is_null (zalloc E w)).
  - eexists _, _. split; [reflexivity|]. now intros q _.
  - destruct (_ <? 0); eexists _, _; (split; [reflexivity|]); intros q Hq;
      cbn [heap log with_heap].
    + rewrite lookup_delete_ne by congruence. now apply lookup_insert_ne.
    + now apply lookup_insert_ne.
Qed.

(** *** Calls in a row *)

Lemma live_insert w p r r' :
  live w p r -> ioe r' = ioe r ->
  forall w', heap w' = <[p := r']> (heap w) -> live w' p r'.
Proof.
  intros (Hp & _ & Hi) Hioe w' Hh.
  split; [exact Hp|]. split; [rewrite Hh; apply lookup_insert_eq|].
  now rewrite Hioe.
Qed.

(** X7 -- enabling and then disabling a detached pin.  When the expander
    grants the attach, the disable that follows hands exactly the
    granted handle back to the expander's detach method, returns its
    answer, and every record is again as it was before the two calls. *)
Theorem gplh_enable_disable_roundtrip w p r :
  live w p r ->
  callback r <> NULL ->
  handle r = NULL ->
  let pinset := pinset_of cfg (pin r) in
  let h := ioe_attach E w (ioe r) pinset fn_gplh_handler p in
  h <> NULL ->
  exists w1 w2,
    gplh_enable cfg E p true w = Ret OK w1
    /\ gplh_enable cfg E p false w1 = Ret (ioe_detach E w1 (ioe r) h) w2
    /\ trace w2 = trace w ++ [EvAttach (ioe r) pinset fn_gplh_handler p;
                              EvDetach (ioe r) h]
    /\ heap w2 = heap w.
Proof.
  intros Hl Hcb Hh pinset h Hgrant. pose proof Hl as (Hp & Hr & Hi).
  pose proof (gplh_enable_run cfg E w p r true Hl) as H1.
  rewrite (proj2 (is_null_false _) Hcb), (proj2 (is_null_true _) Hh) in H1.
  cbv zeta in H1. fold pinset in H1. fold h in H1.
  rewrite (proj2 (is_null_false _) Hgrant) in H1.
  eexists _, _. split; [exact H1|].
  match type of H1 with _ = Ret _ ?x => set (w1 := x) in * end.
  assert (Hl1 : live w1 p (set_handle h r))
    by (apply (live_insert w p r); [exact Hl|reflexivity|reflexivity]).
  pose proof (gplh_enable_run cfg E w1 p (set_handle h r) false Hl1) as H2.
  cbn [handle set_handle ioe] in H2.
  rewrite (proj2 (is_null_false _) Hgrant) in H2.
  split; [exact H2|]. split.
  - cbn [trace heap log with_heap w1]. now rewrite <- app_assoc.
  - cbn [trace heap log with_heap w1]. rewrite insert_insert_eq.
    apply insert_id. rewrite Hr. f_equal. destruct r; cbn in *. now subst.
Qed.

(** X8 -- re-attaching while the interrupt is enabled.  After a granted
    enable, [gplh_attach] with a new callback detaches exactly the
    granted handle and leaves the pin detached with the new callback; the
    enable after that asks the expander again, with the same pin set, and
    stores what it answers. *)
Theorem gplh_reattach_while_enabled w p r C2 :
  live w p r ->
  callback r <> NULL ->
  handle r = NULL ->
  C2 <> NULL ->
  let pinset := pinset_of cfg (pin r) in
  let h := ioe_attach E w (ioe r) pinset fn_gplh_handler p in
  h <> NULL ->
  exists w1 w2 w3 res,
    gplh_enable cfg E p true w = Ret OK w1
    /\ gplh_attach E p C2 w1 = Ret OK w2
    /\ trace w2 = trace w ++ [EvAttach (ioe r) pinset fn_gplh_handler p;
                              EvDetach (ioe r) h]
    /\ heap w2 !! p = Some (set_callback C2 r)
    /\ gplh_enable cfg E p true w2 = Ret res w3
    /\ trace w3 = trace w2 ++ [EvAttach (ioe r) pinset fn_gplh_handler p]
    /\ heap w3 !! p
       = Some (set_handle (ioe_attach E w2 (ioe r) pinset fn_gplh_handler p)
                 (set_callback C2 r)).
Proof.
  intros Hl Hcb Hh HC2 pinset h Hgrant. pose proof Hl as (Hp & Hr & Hi).
  pose proof (gplh_enable_run cfg E w p r true Hl) as H1.
  rewrite (proj2 (is_null_false _) Hcb), (proj2 (is_null_true _) Hh) in H1.
  cbv zeta in H1. fold pinset in H1. fold h in H1.
  rewrite (proj2 (is_null_false _) Hgrant) in H1.
  match type of H1 with _ = Ret _ ?x => set (w1 := x) in * end.
  assert (Hl1 : live w1 p (set_handle h r))
    by (apply (live_insert w p r); [exact Hl|reflexivity|reflexivity]).
  pose proof (gplh_attach_run E w1 p (set_handle h r) C2 Hl1) as H2.
  cbn [handle set_handle ioe] in H2.
  rewrite (proj2 (is_null_false _) Hgrant) in H2.
  assert (Hrec : set_callback C2 (set_handle NULL (set_handle h r))
                 = set_callback C2 r).
  { destruct r; cbn in *. now subst. }
  rewrite Hrec in H2.
  match type of H2 with _ = Ret _ ?x => set (w2 := x) in * end.
  assert (Hl2 : live w2 p (set_callback C2 r)).
  { split; [exact Hp|]. split; [apply lookup_insert_eq|exact Hi]. }
  pose proof (gplh_enable_run cfg E w2 p (set_callback C2 r) true Hl2) as H3.
  cbn [handle callback set_callback ioe pin] in H3.
  rewrite (proj2 (is_null_false _) HC2), (proj2 (is_null_true _) Hh) in H3.
  cbv zeta in H3. fold pinset in H3.
  eexists w1, w2, _, _.
  split; [exact H1|]. split; [exact H2|]. split.
  { cbn [trace heap log with_heap w1 w2]. now rewrite <- app_assoc. }
  split; [apply lookup_insert_eq|]. split; [exact H3|].
  split; [reflexivity|]. cbn [heap with_heap]. apply lookup_insert_eq.
Qed.

(** X9 -- detaching the callback.  [gplh_attach] with a NULL callback,
    from any state, leaves the pin detached with no callback, and the
    enable that follows is refused with [-EPERM] without an expander
    call. *)
Theorem gplh_attach_null_then_enable w p r :
  live w p r ->
  exists w1,
    gplh_attach E p NULL w = Ret OK w1
    /\ heap w1 !! p = Some (set_callback NULL (set_handle NULL r))
    /\ gplh_enable cfg E p true w1 = Ret (- EPERM) w1.
Proof.
  intros Hl. pose proof Hl as (Hp & Hr & Hi).
  eexists. split; [exact (gplh_attach_run E w p r NULL Hl)|].
  split; [apply lookup_insert_eq|].
  erewrite gplh_enable_run
    by (split; [exact Hp|]; split; [apply lookup_insert_eq|exact Hi]).
  reflexivity.
Qed.

(** X10 -- what the return value of [gplh_enable] tells.  On a record
    that holds a handle only together with a callback, enabling returns
    OK, [-EPERM] or [-EIO]; it returns OK exactly when the pin is
    attached afterwards and [-EPERM] exactly when no callback is set.
    Disabling leaves the pin detached whatever it returns.  Neither
    changes the callback. *)
Theorem gplh_enable_result w p r :
  live w p r ->
  irq_inv r ->
  (exists res w' r',
      gplh_enable cfg E p true w = Ret res w'
      /\ heap w' !! p = Some r'
      /\ callback r' = callback r
      /\ (res = OK \/ res = - EPERM \/ res = - EIO)
      /\ (res = OK <-> handle r' <> NULL)
      /\ (res = - EPERM <-> callback r = NULL))
  /\ (exists res w' r',
      gplh_enable cfg E p false w = Ret res w'
      /\ heap w' !! p = Some r'
      /\ callback r' = callback r
      /\ handle r' = NULL).
Proof.
  intros Hl Hinv. pose proof Hl as (Hp & Hr & Hi). split.
  - rewrite (gplh_enable_run cfg E w p r true Hl).
    destruct (is_null (callback r)) eqn:Hcb.
    + apply is_null_true in Hcb.
      exists (- EPERM), w, r. split; [reflexivity|]. split; [exact Hr|].
      split; [reflexivity|]. split; [auto|]. split; [|tauto].
      split; [discriminate|]. intros Hh. now destruct (Hinv Hh).
    + apply is_null_false in Hcb. destruct (is_null (handle r)) eqn:Hh.
      * cbv zeta. destruct (is_null (ioe_attach _ _ _ _ _ _)) eqn:Hg;
          eexists _, _, _; (split; [reflexivity|]);
          (split; [cbn [heap with_heap]; apply lookup_insert_eq|]);
          (split; [reflexivity|]); cbn [handle set_handle].
        -- apply is_null_true in Hg. split; [auto|]. split.
           ++ split; [discriminate|]. intros Hn. now destruct Hn.
           ++ split; [discriminate|]. intros Hn. now destruct Hcb.
        -- apply is_null_false in Hg. split; [auto|]. split; [tauto|].
           split; [discriminate|]. intros Hn. now destruct Hcb.
      * apply is_null_false in Hh.
        exists OK, w, r. split; [reflexivity|]. split; [exact Hr|].
        split; [reflexivity|]. split; [auto|]. split; [tauto|].
        split; [discriminate|]. intros Hn. now destruct Hcb.
  - rewrite (gplh_enable_run cfg E w p r false Hl).
    destruct (is_null (handle r)) eqn:Hh.
    + apply is_null_true in Hh. now exists OK, w, r.
    + eexists _, _, _. split; [reflexivity|].
      split; [cbn [heap with_heap]; apply lookup_insert_eq|]. now split.
Qed.

(** X11 -- a refused attach is not remembered.  When the expander
    answers NULL to an enable, the call returns [-EIO], and the next
    enable asks the expander again with the same arguments; it returns
    OK exactly when the expander then grants the attach. *)
Theorem gplh_enable_retry w p r :
  live w p r ->
  callback r <> NULL ->
  handle r = NULL ->
  let a := EvAttach (ioe r) (pinset_of cfg (pin r)) fn_gplh_handler p in
  ioe_attach E w (ioe r) (pinset_of cfg (pin r)) fn_gplh_handler p = NULL ->
  exists w1 res w2,
    gplh_enable cfg E p true w = Ret (- EIO) w1
    /\ gplh_enable cfg E p true w1 = Ret res w2
    /\ trace w2 = trace w ++ [a; a]
    /\ (res = OK <->
        ioe_attach E w1 (ioe r) (pinset_of cfg (pin r)) fn_gplh_handler p
          <> NULL).
Proof.
  intros Hl Hcb Hh a Hrefuse. pose proof Hl as (Hp & Hr & Hi).
  pose proof (gplh_enable_run cfg E w p r true Hl) as H1.
  rewrite (proj2 (is_null_false _) Hcb), (proj2 (is_null_true _) Hh) in H1.
  cbv zeta in H1. rewrite Hrefuse in H1. change (is_null NULL) with true in H1.
  cbv iota in H1.
  assert (Hrec : set_handle NULL r = r) by (rewrite <- Hh; apply set_handle_id).
  rewrite Hrec in H1.
  match type of H1 with _ = Ret _ ?x => set (w1 := x) in * end.
  assert (Hl1 : live w1 p r).
  { split; [exact Hp|]. split; [apply lookup_insert_eq|exact Hi]. }
  pose proof (gplh_enable_run cfg E w1 p r true Hl1) as H2.
  rewrite (proj2 (is_null_false _) Hcb), (proj2 (is_null_true _) Hh) in H2.
  cbv zeta in H2.
  eexists w1, _, _. split; [exact H1|]. split; [exact H2|]. split.
  - cbn [trace heap log with_heap w1]. now rewrite <- app_assoc.
  - destruct (is_null (ioe_attach E w1 _ _ _ _)) eqn:Hg.
    + apply is_null_true in Hg. split; [discriminate|]. intros Hn. now destruct Hn.
    + apply is_null_false in Hg. tauto.
Qed.

(** *** Where handles come from *)

Lemma handles_logged_step w w' :
  step cfg E w w' -> handles_logged w -> handles_logged w'.
Proof.
  intros Hs Hw.
  destruct Hs as [ioe_ pin_ pintype minor res w w' H|c g w w' H
                 |f dev pinset arg res w w' H].
  - (* construction *)
    destruct (is_null ioe_) eqn:Hi;
      [unfold gpio_lower_half, bind, DEBUGASSERT in H; now rewrite Hi in H|].
    destruct (pin_ <? CONFIG_IOEXPANDER_NPINS cfg) eqn:Hpin;
      [|unfold gpio_lower_half, bind, DEBUGASSERT in H;
        now rewrite Hi, Hpin in H].
    destruct (uint pintype <? GPIO_NPINTYPES cfg) eqn:Hty;
      [|unfold gpio_lower_half, bind, DEBUGASSERT in H;
        now rewrite Hi, Hpin, Hty in H].
    apply is_null_false in Hi. apply Z.ltb_lt in Hpin, Hty.
    rewrite (gpio_lower_half_run cfg E _ _ _ _ _ Hi Hpin Hty) in H.
    cbv zeta in H.
    assert (Hnew : forall q r, <[zalloc E w := gplh_created pin_ pintype]> (heap w) !! q = Some r ->
                     handle r <> NULL -> heap w !! q = Some r).
    { intros q r Hq Hh. destruct (decide (zalloc E w = q)) as [<-|Hne].
      - rewrite lookup_insert_eq in Hq. inversion Hq; subst r. now destruct Hh.
      - now rewrite lookup_insert_ne in Hq. }
    destruct (is_null (zalloc E w)).
    + inversion H; subst. intros q r Hq Hh. cbn [heap trace log] in *.
      destruct (Hw q r Hq Hh) as (d & ps & Hin).
      exists d, ps. apply in_or_app. now left.
    + destruct (_ <? 0); inversion H; subst; intros q r Hq Hh;
        cbn [heap trace log with_heap] in *.
      * apply lookup_delete_Some in Hq as [_ Hq].
        destruct (Hw q r (Hnew q r Hq Hh) Hh) as (d & ps & Hin).
        exists d, ps. rewrite <- !app_assoc. apply in_or_app. now left.
      * destruct (Hw q r (Hnew q r Hq Hh) Hh) as (d & ps & Hin).
        exists d, ps. rewrite <- !app_assoc. apply in_or_app. now left.
  - (* a call through the operation table *)
    destruct (run_call_live c g w w' H) as [r Hl].
    pose proof Hl as (Hp & Hr & Hi).
    destruct (run_call_effect c g r w Hl)
      as (r' & evs & Hrun & _ & _ & _ & _ & _ & Hcase).
    rewrite Hrun in H. inversion H; subst w'. clear H.
    intros q rq Hq Hh. cbn [heap trace] in *.
    destruct (decide (g = q)) as [<-|Hne].
    + rewrite lookup_insert_eq in Hq. inversion Hq; subst rq.
      destruct Hcase as [Hsame|[Hnull|Hev]].
      * rewrite Hsame in Hh. destruct (Hw g r Hr Hh) as (d & ps & Hin).
        exists d, ps. apply in_or_app. now left.
      * now destruct Hh.
      * subst evs. eexists _, _. apply in_or_app. right. now left.
    + rewrite lookup_insert_ne in Hq by exact Hne.
      destruct (Hw q rq Hq Hh) as (d & ps & Hin).
      exists d, ps. apply in_or_app. now left.
  - (* an interrupt *)
    destruct f. cbn [ioe_callback] in H.
    destruct (gplh_handler_Ret_inv dev pinset arg w res w' H)
      as (Ha & r & Hr & Hcb).
    rewrite (gplh_handler_run E w dev pinset arg r Ha Hr Hcb) in H.
    inversion H; subst. intros q rq Hq Hh. cbn [heap trace log] in *.
    destruct (Hw q rq Hq Hh) as (d & ps & Hin).
    exists d, ps. apply in_or_app. now left.
Qed.

(** X14 -- a handle is never made up.  Through constructions, calls
    through the operation table and delivered interrupts, a record holds
    a non-null handle only if the expander's attach method was called
    with [gplh_handler] and that very record as argument: this holds in
    every state reached from a state in which it holds, the state with
    no record among them. *)
Theorem handles_logged_reachable w0 w :
  handles_logged w0 ->
  rtc (step cfg E) w0 w ->
  handles_logged w.
Proof.
  intros H0 Hreach. induction Hreach as [|x y z Hxy _ IH]; [exact H0|].
  apply IH. exact (handles_logged_step x y Hxy H0).
Qed.

End DriverMore.

(** ** The board at work, continued *)

Lemma gpio_lower_half_success_witness :
  exists w',
    gpio_lower_half board_cfg (board 77 0 0 4096) 8192 3 2 0 empty_world
      = Ret 0 w'
    /\ trace w' = [EvZalloc; EvRegister 4096 0]
    /\ heap w' = <[4096 := gplh_created 3 2]> (heap empty_world)
    /\ exists r,
        heap w' !! 4096 = Some r
        /\ pin r = 3
        /\ gp_pintype (gpio r) = 2
        /\ deref_ops board_cfg (board 77 0 0 4096) (gp_ops (gpio r))
           = Some (g_gplh_ops board_cfg (board 77 0 0 4096))
        /\ handle r = NULL /\ callback r = NULL.
Proof.
  apply (gpio_lower_half_success board_cfg (board 77 0 0 4096)
           empty_world 8192 3 2 0);
    first [discriminate | cbn; lia].
Defined.

Lemma gpio_lower_half_device_fails_assertion_witness :
  exists w',
    gpio_lower_half board_cfg (board 77 0 0 4096) 8192 3 2 0 empty_world
      = Ret 0 w'
    /\ (exists r, heap w' !! 4096 = Some r /\ ioe r = NULL)
    /\ forall c, run_call board_cfg (board 77 0 0 4096) c 4096 w' = Abort.
Proof.
  apply (gpio_lower_half_device_fails_assertion board_cfg (board 77 0 0 4096)
           empty_world 8192 3 2 0);
    first [discriminate | reflexivity | cbn; lia].
Defined.

Lemma gpio_lower_half_frame_witness :
  exists res w',
    gpio_lower_half board_cfg (board 77 0 (-17) 8192) 8192 3 2 0
      (pin3_world NULL NULL) = Ret res w'
    /\ forall q, q <> 8192 ->
         heap w' !! q = heap (pin3_world NULL NULL) !! q.
Proof.
  apply (gpio_lower_half_frame board_cfg (board 77 0 (-17) 8192)
           (pin3_world NULL NULL) 8192 3 2 0);
    first [discriminate | reflexivity].
Defined.

Lemma run_call_frame_witness :
  exists w' r',
    run_call board_cfg (board 77 0 0 4096) (call_enable true) 4096
      (pin3_world NULL 12288) = Ret tt w'
    /\ heap w' !! 4096 = Some r'
    /\ gpio r' = gpio (pin3 NULL 12288)
    /\ pin r' = 3
    /\ ioe r' = 8192
    /\ live w' 4096 r'
    /\ forall q, q <> 4096 -> heap w' !! q = heap (pin3_world NULL 12288) !! q.
Proof.
  exact (run_call_frame board_cfg (board 77 0 0 4096) (call_enable true)
           4096 (pin3 NULL 12288) (pin3_world NULL 12288)
           (pin3_live NULL 12288)).
Defined.

Lemma run_call_one_expander_call_witness :
  exists w' evs,
    run_call board_cfg (board 77 0 0 4096) (call_enable false) 4096
      (pin3_world 77 12288) = Ret tt w'
    /\ trace w' = evs
    /\ (length evs <= 1)%nat
    /\ forall e, In e evs -> event_dev e = Some 8192.
Proof.
  exact (run_call_one_expander_call board_cfg (board 77 0 0 4096)
           (call_enable false) 4096 (pin3 77 12288) (pin3_world 77 12288)
           (pin3_live 77 12288)).
Defined.

Lemma gplh_enable_disable_roundtrip_witness :
  exists w1 w2,
    gplh_enable board_cfg (board 77 (- EIO) 0 4096) 4096 true
      (pin3_world NULL 12288) = Ret OK w1
    /\ gplh_enable board_cfg (board 77 (- EIO) 0 4096) 4096 false w1
       = Ret (- EIO) w2
    /\ trace w2 = [EvAttach 8192 8 fn_gplh_handler 4096; EvDetach 8192 77]
    /\ heap w2 = heap (pin3_world NULL 12288).
Proof.
  apply (gplh_enable_disable_roundtrip board_cfg (board 77 (- EIO) 0 4096)
           (pin3_world NULL 12288) 4096 (pin3 NULL 12288));
    first [apply pin3_live | discriminate | reflexivity].
Defined.

Lemma gplh_reattach_while_enabled_witness :
  exists w1 w2 w3 res,
    gplh_enable board_cfg (board 77 0 0 4096) 4096 true (pin3_world NULL 12288)
      = Ret OK w1
    /\ gplh_attach (board 77 0 0 4096) 4096 16384 w1 = Ret OK w2
    /\ trace w2 = [EvAttach 8192 8 fn_gplh_handler 4096; EvDetach 8192 77]
    /\ heap w2 !! 4096 = Some (pin3 NULL 16384)
    /\ gplh_enable board_cfg (board 77 0 0 4096) 4096 true w2 = Ret res w3
    /\ trace w3 = trace w2 ++ [EvAttach 8192 8 fn_gplh_handler 4096]
    /\ heap w3 !! 4096 = Some (pin3 77 16384).
Proof.
  apply (gplh_reattach_while_enabled board_cfg (board 77 0 0 4096)
           (pin3_world NULL 12288) 4096 (pin3 NULL 12288) 16384);
    first [apply pin3_live | discriminate | reflexivity].
Defined.

Lemma gplh_attach_null_then_enable_witness :
  exists w1,
    gplh_attach (board 77 0 0 4096) 4096 NULL (pin3_world 77 12288) = Ret OK w1
    /\ heap w1 !! 4096 = Some (pin3 NULL NULL)
    /\ gplh_enable board_cfg (board 77 0 0 4096) 4096 true w1
       = Ret (- EPERM) w1.
Proof.
  exact (gplh_attach_null_then_enable board_cfg (board 77 0 0 4096)
           (pin3_world 77 12288) 4096 (pin3 77 12288) (pin3_live 77 12288)).
Defined.

Lemma gplh_enable_result_witness :
  exists res w' r',
    gplh_enable board_cfg (board 77 0 0 4096) 4096 true (pin3_world NULL 12288)
      = Ret res w'
    /\ heap w' !! 4096 = Some r'
    /\ callback r' = 12288
    /\ (res = OK \/ res = - EPERM \/ res = - EIO)
    /\ (res = OK <-> handle r' <> NULL)
    /\ (res = - EPERM <-> 12288 = NULL).
Proof.
  apply (proj1 (gplh_enable_result board_cfg (board 77 0 0 4096)
                  (pin3_world NULL 12288) 4096 (pin3 NULL 12288)
                  (pin3_live NULL 12288)
                  (fun Hh : NULL <> NULL => match Hh eq_refl with end))).
Defined.

Lemma gplh_enable_retry_witness :
  exists w1 res w2,
    gplh_enable board_cfg (board NULL 0 0 4096) 4096 true (pin3_world NULL 12288)
      = Ret (- EIO) w1
    /\ gplh_enable board_cfg (board NULL 0 0 4096) 4096 true w1 = Ret res w2
    /\ trace w2 = [EvAttach 8192 8 fn_gplh_handler 4096;
                   EvAttach 8192 8 fn_gplh_handler 4096]
    /\ (res = OK <-> NULL <> NULL).
Proof.
  apply (gplh_enable_retry board_cfg (board NULL 0 0 4096)
           (pin3_world NULL 12288) 4096 (pin3 NULL 12288));
    first [apply pin3_live | discriminate | reflexivity].
Defined.

Lemma pinset_of_pins_witness :
  pinset_of board_cfg 3 = 8
  /\ 0 < pinset_of board_cfg 3 < 65536
  /\ (3 <> 5 -> Z.land (pinset_of board_cfg 3) (pinset_of board_cfg 5) = 0)
  /\ (pinset_of board_cfg 3 = pinset_of board_cfg 5 -> 3 = 5).
Proof.
  apply (pinset_of_pins board_cfg 3 5); cbn; lia.
Defined.

Lemma handles_logged_reachable_witness :
  exists w,
    rtc (step board_cfg (board 77 0 0 4096)) (pin3_world NULL NULL) w
    /\ heap w !! 4096 = Some (pin3 77 12288)
    /\ exists dev pinset, In (EvAttach dev pinset fn_gplh_handler 4096) (trace w).
Proof.
  set (E := board 77 0 0 4096).
  set (w1 := with_heap (insert 4096 (pin3 NULL 12288)) (pin3_world NULL NULL)).
  set (w2 := with_heap (insert 4096 (pin3 77 12288))
               (log (EvAttach 8192 8 fn_gplh_handler 4096) w1)).
  assert (H1 : run_call board_cfg E (call_attach 12288) 4096 (pin3_world NULL NULL)
               = Ret tt w1).
  { cbn [run_call g_gplh_ops go_attach]. unfold bind.
    rewrite (gplh_attach_run E _ 4096 (pin3 NULL NULL) 12288 (pin3_live NULL NULL)).
    reflexivity. }
  assert (Hl1 : live w1 4096 (pin3 NULL 12288)).
  { split; [discriminate|]. split; [apply lookup_insert_eq|discriminate]. }
  assert (H2 : run_call board_cfg E (call_enable true) 4096 w1 = Ret tt w2).
  { cbn [run_call g_gplh_ops go_enable]. unfold bind.
    rewrite (gplh_enable_run board_cfg E w1 4096 (pin3 NULL 12288) true Hl1).
    reflexivity. }
  assert (Hreach : rtc (step board_cfg E) (pin3_world NULL NULL) w2).
  { eapply rtc_l; [exact (step_call _ _ _ _ _ _ H1)|].
    eapply rtc_l; [exact (step_call _ _ _ _ _ _ H2)|]. apply rtc_refl. }
  assert (H0 : handles_logged (pin3_world NULL NULL)).
  { intros p r Hr Hh. cbn [heap pin3_world] in Hr.
    apply lookup_singleton_Some in Hr as [_ <-]. now contradict Hh. }
  assert (Hr2 : heap w2 !! 4096 = Some (pin3 77 12288))
    by apply lookup_insert_eq.
  exists w2. split; [exact Hreach|]. split; [exact Hr2|].
  apply (handles_logged_reachable board_cfg E (pin3_world NULL NULL) w2
           H0 Hreach 4096 (pin3 77 12288) Hr2).
  discriminate.
Defined.

(** ** Construction followed by a read or a write *)

Lemma assert_priv_ioe_null w p r :
  heap w !! p = Some r -> ioe r = NULL -> assert_priv_ioe p w = Abort.
Proof.
  intros Hr Hi. unfold assert_priv_ioe.
  unfold bind at 1. unfold DEBUGASSERT at 1.
  destruct (is_null p); cbn [negb]; [reflexivity|].
  rewrite (bind_Ret _ _ _ _ _ (load_Some _ _ _ Hr)).
  unfold bind, DEBUGASSERT.
  now rewrite (proj2 (is_null_true _) Hi).
Qed.

(** C2 -- construction followed at once by a read or a write: expander
    8192, pin 3, pin type 2, minor 0, memory at 4096, registration
    accepted.  The new record holds pin 3, but its [ioe] is NULL, so
    [gplh_read] and [gplh_write] on the new device stop at the assertion
    [priv->ioe != NULL]: neither reaches the expander's read-pin or
    write-pin method, and pin 3 is forwarded to no one. *)
Theorem gpio_lower_half_then_read_write_stop :
  exists w' r,
    gpio_lower_half board_cfg (board 77 0 0 4096) 8192 3 2 0 empty_world
      = Ret OK w'
    /\ heap w' !! 4096 = Some r
    /\ pin r = 3
    /\ ioe r = NULL
    /\ gplh_read (board 77 0 0 4096) 4096 w' = Abort
    /\ forall value, gplh_write (board 77 0 0 4096) 4096 value w' = Abort.
Proof.
  eexists _, (gplh_created 3 2). split.
  - rewrite gpio_lower_half_run; [|discriminate|reflexivity|reflexivity].
    reflexivity.
  - assert (Hr : forall t,
               heap {| heap := <[4096 := gplh_created 3 2]> (heap empty_world);
                       trace := t |} !! 4096
               = Some (gplh_created 3 2))
      by (intros t; apply lookup_insert_eq).
    split; [apply Hr|]. split; [reflexivity|]. split; [reflexivity|].
    split; [|intros value].
    + unfold gplh_read, priv_of. apply bind_Abort.
      apply (assert_priv_ioe_null _ 4096 (gplh_created 3 2));
        [apply Hr|reflexivity].
    + unfold gplh_write, priv_of. apply bind_Abort.
      apply (assert_priv_ioe_null _ 4096 (gplh_created 3 2));
        [apply Hr|reflexivity].
Qed.
